(** * Raksha Bandhan website: the sister-record lookup and validation module

    A shallow embedding of [script.js]: [loadSistersData],
    [checkSisterExists], [getSisterData] and [validateSisterData], with the
    properties of the module's specification stated over it.

    JavaScript is dynamically typed, its functions may throw, and they read
    and write shared state.  The embedding keeps all three: values carry
    their run-time tag, a computation is a function from a state to a
    completion (a value or a thrown error) and a new state, and the state
    survives a throw, as it does in JavaScript.

    The functions of the store are [async].  An [await] is modelled as
    done before the next statement runs, and calls run one after the
    other: the interleavings of calls that are in flight together are not
    part of the model. *)

From Stdlib Require Import Ascii String.
From stdpp Require Import base tactics option list strings pretty.

Set Warnings "-register-all".

(** ** Completions and the state-and-exception monad *)

(** What a [throw] carries.  [TypeError] is what the engine raises for a
    property read on [undefined]/[null] and for a call of a non-function;
    [Error] is the [new Error(...)] of [loadSistersData]; [Rejected] is the
    reason of a rejected host promise ([fetch], [response.json()]). *)
Inductive exn :=
  | TypeError (msg : string)
  | Error (msg : string)
  | Rejected (msg : string).

Inductive completion (A : Type) :=
  | Normal (a : A)
  | Throw (e : exn).
Arguments Normal {A} a.
Arguments Throw {A} e.

Definition JS (St A : Type) : Type := St → completion A * St.

#[global] Instance JS_ret {St} : MRet (JS St) :=
  λ A a s, (Normal a, s).

#[global] Instance JS_bind {St} : MBind (JS St) :=
  λ A B f m s,
    match m s with
    | (Normal a, s') => f a s'
    | (Throw e, s') => (Throw e, s')
    end.

Definition throw {St A} (e : exn) : JS St A := λ s, (Throw e, s).

(** [try { body } catch (error) { handler }]: the handler runs in the state
    the body left behind. *)
Definition try_catch {St A} (body : JS St A) (handler : exn → JS St A) : JS St A :=
  λ s,
    match body s with
    | (Normal a, s') => (Normal a, s')
    | (Throw e, s') => handler e s'
    end.

Definition gets {St A} (f : St → A) : JS St A := λ s, (Normal (f s), s).
Definition modify {St} (f : St → St) : JS St () := λ s, (Normal (), f s).

(** [if (c) { body }] without an [else]. *)
Definition when {St} (c : bool) (body : JS St ()) : JS St () :=
  if c then body else mret ().

(** A computation is [pure] when it neither reads nor writes the state. *)
Definition pure {St A} (m : JS St A) : Prop := ∃ c, ∀ s, m s = (c, s).

(** ** Built-ins of the host

    [String.prototype.toLowerCase], [String.prototype.trim] and the [URL]
    constructor belong to the JavaScript engine, not to the repository.
    They are parameters of the development: every theorem holds for any
    engine.  [URL_parses s] tells whether [new URL(s)] returns (rather than
    throws). *)
Class Builtins := {
  toLowerCase : string → string;
  trim : string → string;
  URL_parses : string → bool;
}.

(** ** Part I: the record store and the lookup service *)

(** *** Values of the store

    The store holds what [response.json()] produced: a JSON document, which
    is a tree.  [VUndefined] is added for the reads of a missing property.
    Numbers are integers here: the code only compares a length with [0] and
    tests truthiness. *)
Inductive value :=
  | VUndefined
  | VNull
  | VBool (b : bool)
  | VNum (n : Z)
  | VStr (s : string)
  | VArr (elems : list value)
  | VObj (fields : list (string * value)).

(** The property table of an object: the first binding of a key. *)
Fixpoint lookup_field {V} (k : string) (fields : list (string * V)) : option V :=
  match fields with
  | [] => None
  | (k', v) :: rest => if String.eqb k k' then Some v else lookup_field k rest
  end.

(** ToBoolean. *)
Definition truthy (v : value) : bool :=
  match v with
  | VUndefined | VNull => false
  | VBool b => b
  | VNum n => negb (n =? 0)%Z
  | VStr s => negb (String.eqb s "")
  | VArr _ | VObj _ => true
  end.

(** [a === b] with a primitive on one side, which is every use in the
    source ([length === 0], [string === string]); an object is identical to
    no primitive. *)
Definition strict_eq (a b : value) : bool :=
  match a, b with
  | VUndefined, VUndefined => true
  | VNull, VNull => true
  | VBool x, VBool y => Bool.eqb x y
  | VNum x, VNum y => (x =? y)%Z
  | VStr x, VStr y => String.eqb x y
  | _, _ => false
  end.

(** [v.k] for a data property [k].  A read on [undefined] or [null] throws;
    arrays and strings have a [length]; nothing else has the properties the
    source reads unless an object binds them itself. *)
Definition get_prop {St} (v : value) (k : string) : JS St value :=
  match v with
  | VUndefined | VNull =>
      throw (TypeError ("Cannot read properties of undefined or null (reading " +:+ k +:+ ")"))
  | VObj fields => mret (default VUndefined (lookup_field k fields))
  | VArr elems =>
      mret (if String.eqb k "length" then VNum (Z.of_nat (length elems)) else VUndefined)
  | VStr s =>
      mret (if String.eqb k "length" then VNum (Z.of_nat (String.length s)) else VUndefined)
  | VBool _ | VNum _ => mret VUndefined
  end.

(** *** The page session and the network *)

(** What [response.json()] settles to. *)
Inductive body :=
  | Malformed
  | Document (v : value).

Record response := { ok : bool; status : nat; content : body }.

(** What [fetch('data.json')] settles to. *)
Inductive fetch_result :=
  | NetworkFailure
  | Responds (r : response).

(** The global [sistersData], the number of [fetch] calls issued so far
    and the lines written with [console.error]. *)
Record session := {
  sistersData : value;
  fetches : nat;
  console : list (string * exn);
}.

Section Store.
Context `{Builtins}.

(** [v.m()] for the two string methods the source calls.  Only a string
    has them; the store holds data, so no object supplies its own. *)
Definition invoke {St} (v : value) (m : string) : JS St value :=
  match v with
  | VUndefined | VNull =>
      throw (TypeError ("Cannot read properties of undefined or null (reading " +:+ m +:+ ")"))
  | VStr s =>
      if String.eqb m "toLowerCase" then mret (VStr (toLowerCase s))
      else if String.eqb m "trim" then mret (VStr (trim s))
      else throw (TypeError (m +:+ " is not a function"))
  | _ => throw (TypeError (m +:+ " is not a function"))
  end.

(** The loop of [Array.prototype.some]: stops at the first truthy answer;
    a throwing callback ends it. *)
Fixpoint some_loop {St} (cb : value → JS St value) (elems : list value) : JS St value :=
  match elems with
  | [] => mret (VBool false)
  | x :: rest =>
      b ← cb x;
      if truthy b then mret (VBool true) else some_loop cb rest
  end.

(** The loop of [Array.prototype.find]: the first element with a truthy
    answer, [undefined] when there is none. *)
Fixpoint find_loop {St} (cb : value → JS St value) (elems : list value) : JS St value :=
  match elems with
  | [] => mret VUndefined
  | x :: rest =>
      b ← cb x;
      if truthy b then mret x else find_loop cb rest
  end.

(** [arr.some(cb)] and [arr.find(cb)]: only an array has the methods. *)
Definition some {St} (arr : value) (cb : value → JS St value) : JS St value :=
  match arr with
  | VArr elems => some_loop cb elems
  | VUndefined | VNull =>
      throw (TypeError "Cannot read properties of undefined or null (reading some)")
  | _ => throw (TypeError "some is not a function")
  end.

Definition find {St} (arr : value) (cb : value → JS St value) : JS St value :=
  match arr with
  | VArr elems => find_loop cb elems
  | VUndefined | VNull =>
      throw (TypeError "Cannot read properties of undefined or null (reading find)")
  | _ => throw (TypeError "find is not a function")
  end.

(** The network answers the [k]-th request of the session with
    [network k]: the data source may change or fail between requests. *)
Variable network : nat → fetch_result.

Definition set_sistersData (v : value) : JS session () :=
  modify (λ s, {| sistersData := v; fetches := fetches s; console := console s |}).

Definition console_error (msg : string) (error : exn) : JS session () :=
  modify (λ s, {| sistersData := sistersData s; fetches := fetches s;
                  console := console s ++ [(msg, error)] |}).

(** [await fetch('data.json')] *)
Definition fetch : JS session response :=
  λ s,
    let s' := {| sistersData := sistersData s; fetches := S (fetches s);
                 console := console s |} in
    match network (fetches s) with
    | NetworkFailure => (Throw (Rejected "Failed to fetch"), s')
    | Responds r => (Normal r, s')
    end.

(** [await response.json()] *)
Definition json (r : response) : JS session value :=
  match content r with
  | Malformed => throw (Rejected "Unexpected token in JSON")
  | Document v => mret v
  end.

(** <<
    async function loadSistersData() {
        try {
            const response = await fetch('data.json');
            if (!response.ok) {
                throw new Error(`HTTP error! status: ${response.status}`);
            }
            sistersData = await response.json();
            return sistersData;
        } catch (error) {
            console.error('Error loading sisters data:', error);
            sistersData = [];
            return sistersData;
        }
    }
    >> *)
Definition loadSistersData : JS session value :=
  try_catch
    (response ← fetch;
     (if negb (ok response)
      then throw (Error ("HTTP error! status: " +:+ pretty (status response)))
      else mret ());;
     v ← json response;
     set_sistersData v;;
     gets sistersData)
    (λ error,
       console_error "Error loading sisters data:" error;;
       set_sistersData (VArr []);;
       gets sistersData).

(** The lazy population both lookups start with:
    [if (sistersData.length === 0) { await loadSistersData(); }] *)
Definition ensure_loaded : JS session () :=
  sd ← gets sistersData;
  len ← get_prop sd "length";
  when (strict_eq len (VNum 0)) (loadSistersData;; mret ()).

(** [name.toLowerCase().trim()] *)
Definition normalized (name : value) : JS session value :=
  lower ← invoke name "toLowerCase";
  invoke lower "trim".

(** The callback of both scans:
    [sister => sister.name.toLowerCase().trim() === normalizedSearchName] *)
Definition name_matches (normalizedSearchName : value) (sister : value) : JS session value :=
  n ← get_prop sister "name";
  k ← normalized n;
  mret (VBool (strict_eq k normalizedSearchName)).

(** <<
    async function checkSisterExists(name) {
        try {
            if (sistersData.length === 0) {
                await loadSistersData();
            }
            const normalizedSearchName = name.toLowerCase().trim();
            return sistersData.some(sister =>
                sister.name.toLowerCase().trim() === normalizedSearchName
            );
        } catch (error) {
            console.error('Error checking sister existence:', error);
            return false;
        }
    }
    >> *)
Definition checkSisterExists (name : value) : JS session value :=
  try_catch
    (ensure_loaded;;
     normalizedSearchName ← normalized name;
     sd ← gets sistersData;
     some sd (name_matches normalizedSearchName))
    (λ error,
       console_error "Error checking sister existence:" error;;
       mret (VBool false)).

(** <<
    async function getSisterData(name) {
        try {
            if (sistersData.length === 0) {
                await loadSistersData();
            }
            const normalizedSearchName = name.toLowerCase().trim();
            const sister = sistersData.find(sister =>
                sister.name.toLowerCase().trim() === normalizedSearchName
            );
            return sister || null;
        } catch (error) {
            console.error('Error getting sister data:', error);
            return null;
        }
    }
    >> *)
Definition getSisterData (name : value) : JS session value :=
  try_catch
    (ensure_loaded;;
     normalizedSearchName ← normalized name;
     sd ← gets sistersData;
     sister ← find sd (name_matches normalizedSearchName);
     mret (if truthy sister then sister else VNull))
    (λ error,
       console_error "Error getting sister data:" error;;
       mret VNull).

End Store.

(** *** Sequences of lookups

    A page issues its lookups one after the other, each awaited before the
    next one starts. *)
Inductive lookup :=
  | Exists (name : value)
  | Find (name : value).

Section Calls.
Context `{Builtins}.
Variable network : nat → fetch_result.

Definition run_lookup (c : lookup) : JS session value :=
  match c with
  | Exists name => checkSisterExists network name
  | Find name => getSisterData network name
  end.

(** The session after a sequence of lookups. *)
Fixpoint run_lookups (cs : list lookup) (s : session) : session :=
  match cs with
  | [] => s
  | c :: rest => run_lookups rest (run_lookup c s).2
  end.

End Calls.

(** *** Records

    A Record of the data model is an object whose [name] is a string; its
    lookup key is that name, lower-cased and then trimmed. *)
Definition record_name (r : value) : option string :=
  match r with
  | VObj fields =>
      match lookup_field "name" fields with
      | Some (VStr n) => Some n
      | _ => None
      end
  | _ => None
  end.

Definition is_record (r : value) : Prop := is_Some (record_name r).

Definition key `{Builtins} (name : string) : string := trim (toLowerCase name).

(** [r] is a Record whose key is the key of [name]. *)
Definition matches `{Builtins} (name : string) (r : value) : Prop :=
  ∃ n, record_name r = Some n ∧ key n = key name.

(** The boolean form of [matches]. *)
Definition matchesb `{Builtins} (name : string) (r : value) : bool :=
  match record_name r with
  | Some n => String.eqb (key n) (key name)
  | None => false
  end.

(** [r] is the first Record of [l], in order, that matches [name]. *)
Definition first_match `{Builtins} (name : string) (l : list value) (r : value) : Prop :=
  ∃ before after,
    l = before ++ r :: after ∧ Forall (λ x, ¬ matches name x) before ∧ matches name r.

Definition no_match `{Builtins} (name : string) (l : list value) : Prop :=
  Forall (λ x, ¬ matches name x) l.

(** The store is a sequence of Records. *)
Definition is_record_sequence (v : value) : Prop :=
  ∃ l, v = VArr l ∧ Forall is_record l.

(** The three ways a load fails: the request itself, a status outside the
    success range, a body that is not JSON. *)
Inductive load_fails : fetch_result → Prop :=
  | fails_network : load_fails NetworkFailure
  | fails_status r : ok r = false → load_fails (Responds r)
  | fails_parse r : content r = Malformed → load_fails (Responds r).

(** The document of a load that succeeds. *)
Definition loaded_document (fr : fetch_result) : option value :=
  match fr with
  | NetworkFailure => None
  | Responds r =>
      if ok r then
        match content r with
        | Document v => Some v
        | Malformed => None
        end
      else None
  end.

(** The test of the lazy population, [sistersData.length === 0], where
    the read does not throw. *)
Definition store_is_empty (sd : value) : bool :=
  match sd with
  | VArr elems => Nat.eqb (length elems) 0
  | VStr s => Nat.eqb (String.length s) 0
  | VObj fields => strict_eq (default VUndefined (lookup_field "length" fields)) (VNum 0)
  | _ => false
  end.

Section Scans.
Context `{Builtins}.
Variable network : nat → fetch_result.

(** The session as the scan of a lookup finds it: after the lazy
    population. *)
Definition populated (s : session) : session := (ensure_loaded network s).2.

(** What [checkSisterExists] and [getSisterData] do once the store is
    populated. *)
Definition exists_scan (name : value) : JS session value :=
  normalizedSearchName ← normalized name;
  sd ← gets sistersData;
  some sd (name_matches normalizedSearchName).

Definition find_scan (name : value) : JS session value :=
  normalizedSearchName ← normalized name;
  sd ← gets sistersData;
  sister ← find sd (name_matches normalizedSearchName);
  mret (if truthy sister then sister else VNull).

(** What the two lookups answer on a populated session: the result of the
    scan, or the default of the [catch] clause when the scan throws. *)
Definition exists_answer (name : value) (s : session) : value :=
  match (exists_scan name s).1 with
  | Normal v => v
  | Throw _ => VBool false
  end.

Definition find_answer (name : value) (s : session) : value :=
  match (find_scan name s).1 with
  | Normal v => v
  | Throw _ => VNull
  end.

End Scans.

(** The claim that a sequence of lookups issues one request in all. *)
Definition loads_exactly_once `{Builtins} (network : nat → fetch_result)
    (cs : list lookup) (s : session) : Prop :=
  fetches (run_lookups network cs s) = S (fetches s).

(** *** Sessions and data sources to run the model on *)

(** The session of a page that has just been opened:
    [let sistersData = [];] *)
Definition fresh_session : session :=
  {| sistersData := VArr []; fetches := 0; console := [] |}.

Definition sample_record (name : string) : value :=
  VObj [("name", VStr name); ("greeting", VStr "Happy Raksha Bandhan");
        ("message", VStr "To my sister"); ("images", VArr [])].

Definition sample_document : list value :=
  [sample_record " Priya "; sample_record "Anu"; sample_record "PRIYA"].

(** A data source that serves [sample_document]. *)
Definition serving (k : nat) : fetch_result :=
  Responds {| ok := true; status := 200; content := Document (VArr sample_document) |}.

(** A data source that cannot be reached. *)
Definition offline (k : nat) : fetch_result := NetworkFailure.

(** A data source that answers HTTP 500. *)
Definition http_500 (k : nat) : fetch_result :=
  Responds {| ok := false; status := 500; content := Malformed |}.

(** A data source whose JSON document is an object, not an array. *)
Definition serving_object (k : nat) : fetch_result :=
  Responds {| ok := true; status := 200;
              content := Document (VObj [("sisters", VArr sample_document)]) |}.

(** ** Part II: the validator

    [validateSisterData] builds an array, pushes to it and returns a new
    object that refers to it, while its argument is an object of the
    caller.  Objects therefore live in a heap here, and a value is a
    primitive or a reference into the heap. *)
Definition loc := nat.

Inductive hval :=
  | HUndefined
  | HNull
  | HBool (b : bool)
  | HNum (n : Z)
  | HStr (s : string)
  | HRef (l : loc).

Inductive cell :=
  | CArray (elems : list hval)
  | CObject (fields : list (string * hval)).

(** The heap: the cell of reference [l] is at position [l]; allocation
    appends. *)
Abbreviation heap := (list cell).

Definition htruthy (v : hval) : bool :=
  match v with
  | HUndefined | HNull => false
  | HBool b => b
  | HNum n => negb (n =? 0)%Z
  | HStr s => negb (String.eqb s "")
  | HRef _ => true
  end.

(** [a === b] with a primitive on the right, as in the source. *)
Definition hstrict_eq (a b : hval) : bool :=
  match a, b with
  | HUndefined, HUndefined => true
  | HNull, HNull => true
  | HBool x, HBool y => Bool.eqb x y
  | HNum x, HNum y => (x =? y)%Z
  | HStr x, HStr y => String.eqb x y
  | HRef x, HRef y => Nat.eqb x y
  | _, _ => false
  end.

(** A new object or array. *)
Definition alloc (c : cell) : JS heap hval :=
  λ h, (Normal (HRef (length h)), h ++ [c]).

(** No JavaScript program holds a reference to nothing; the model answers
    such a read with a throw of its own. *)
Definition read (l : loc) : JS heap cell :=
  λ h,
    match h !! l with
    | Some c => (Normal c, h)
    | None => (Throw (Error "reference outside the heap"), h)
    end.

Definition write (l : loc) (c : cell) : JS heap () :=
  modify (λ h, <[l := c]> h).

(** [v.k] for a data property [k]. *)
Definition hget_prop (v : hval) (k : string) : JS heap hval :=
  match v with
  | HUndefined | HNull =>
      throw (TypeError ("Cannot read properties of undefined or null (reading " +:+ k +:+ ")"))
  | HBool _ | HNum _ => mret HUndefined
  | HStr s =>
      mret (if String.eqb k "length" then HNum (Z.of_nat (String.length s)) else HUndefined)
  | HRef l =>
      c ← read l;
      match c with
      | CObject fields => mret (default HUndefined (lookup_field k fields))
      | CArray elems =>
          mret (if String.eqb k "length" then HNum (Z.of_nat (length elems)) else HUndefined)
      end
  end.

(** [Array.isArray(v)] *)
Definition isArray (v : hval) : JS heap bool :=
  match v with
  | HRef l =>
      c ← read l;
      mret (match c with CArray _ => true | CObject _ => false end)
  | _ => mret false
  end.

(** [arr.push(v)] *)
Definition push (arr : hval) (v : hval) : JS heap () :=
  match arr with
  | HRef l =>
      c ← read l;
      match c with
      | CArray elems => write l (CArray (elems ++ [v]))
      | CObject _ => throw (TypeError "push is not a function")
      end
  | HUndefined | HNull =>
      throw (TypeError "Cannot read properties of undefined or null (reading push)")
  | _ => throw (TypeError "push is not a function")
  end.

(** The loop of [Array.prototype.forEach] from index [k], with [n] indices
    left: the length is taken once, each element is read from the array as
    it is when its turn comes. *)
Fixpoint forEach_loop (l : loc) (cb : hval → nat → JS heap ()) (k n : nat) : JS heap () :=
  match n with
  | 0 => mret ()
  | S n' =>
      c ← read l;
      match c with
      | CArray elems =>
          match elems !! k with
          | Some v => cb v k
          | None => mret ()
          end
      | CObject _ => mret ()
      end;;
      forEach_loop l cb (S k) n'
  end.

(** [arr.forEach(cb)] *)
Definition forEach (arr : hval) (cb : hval → nat → JS heap ()) : JS heap () :=
  match arr with
  | HRef l =>
      c ← read l;
      match c with
      | CArray elems => forEach_loop l cb 0 (length elems)
      | CObject _ => throw (TypeError "forEach is not a function")
      end
  | HUndefined | HNull =>
      throw (TypeError "Cannot read properties of undefined or null (reading forEach)")
  | _ => throw (TypeError "forEach is not a function")
  end.

Section Validator.
Context `{Builtins}.

(** [v.trim()]: only a string has the method. *)
Definition hinvoke_trim (v : hval) : JS heap hval :=
  match v with
  | HUndefined | HNull =>
      throw (TypeError "Cannot read properties of undefined or null (reading trim)")
  | HStr s => mret (HStr (trim s))
  | _ => throw (TypeError "trim is not a function")
  end.

(** [new URL(url)], whose result the source discards.  The validator
    reaches it only with a string. *)
Definition new_URL (url : hval) : JS heap () :=
  match url with
  | HStr s => if URL_parses s then mret () else throw (TypeError "Invalid URL")
  | _ => throw (TypeError "Invalid URL")
  end.

(** The condition of the three required-field checks:
    [!sisterData.k || sisterData.k.trim() === ''] *)
Definition missing_or_blank (sisterData : hval) (k : string) : JS heap bool :=
  v ← hget_prop sisterData k;
  if negb (htruthy v) then mret true
  else
    v' ← hget_prop sisterData k;
    t ← hinvoke_trim v';
    mret (hstrict_eq t (HStr "")).

(** The callback of the image loop:
    <<
    (url, index) => {
        if (url && url.trim() !== '') {
            try { new URL(url); }
            catch (e) { errors.push(`Image URL ${index + 1} is not valid`); }
        }
    }
    >> *)
Definition check_image (errors : hval) (url : hval) (index : nat) : JS heap () :=
  c ← (if htruthy url
       then t ← hinvoke_trim url; mret (negb (hstrict_eq t (HStr "")))
       else mret false);
  when c
    (try_catch (new_URL url)
       (λ e, push errors (HStr ("Image URL " +:+ pretty (index + 1) +:+ " is not valid")))).

(** <<
    function validateSisterData(sisterData) {
        const errors = [];
        if (!sisterData.name || sisterData.name.trim() === '') {
            errors.push('Name is required');
        }
        if (!sisterData.greeting || sisterData.greeting.trim() === '') {
            errors.push('Greeting is required');
        }
        if (!sisterData.message || sisterData.message.trim() === '') {
            errors.push('Message is required');
        }
        if (sisterData.images && Array.isArray(sisterData.images)) {
            sisterData.images.forEach((url, index) => { ... });
        }
        return { isValid: errors.length === 0, errors: errors };
    }
    >> *)
Definition validateSisterData (sisterData : hval) : JS heap hval :=
  errors ← alloc (CArray []);
  c1 ← missing_or_blank sisterData "name";
  when c1 (push errors (HStr "Name is required"));;
  c2 ← missing_or_blank sisterData "greeting";
  when c2 (push errors (HStr "Greeting is required"));;
  c3 ← missing_or_blank sisterData "message";
  when c3 (push errors (HStr "Message is required"));;
  images ← hget_prop sisterData "images";
  c4 ← (if htruthy images
        then images' ← hget_prop sisterData "images"; isArray images'
        else mret false);
  when c4 (images'' ← hget_prop sisterData "images";
           forEach images'' (check_image errors));;
  len ← hget_prop errors "length";
  alloc (CObject [("isValid", HBool (hstrict_eq len (HNum 0))); ("errors", errors)]).

End Validator.

(** *** Reading a validation result back from the heap *)

(** The strings of an array of strings. *)
Definition strings_of (vs : list hval) : list string :=
  omap (λ v, match v with HStr s => Some s | _ => None end) vs.

(** The [isValid] flag and the [errors] of the result object [r]. *)
Definition result_at (h : heap) (r : hval) : option (bool * list string) :=
  match r with
  | HRef l =>
      match h !! l with
      | Some (CObject [("isValid", HBool b); ("errors", HRef e)]) =>
          match h !! e with
          | Some (CArray vs) => Some (b, strings_of vs)
          | _ => None
          end
      | _ => None
      end
  | _ => None
  end.

(** *** What the validator is specified to answer *)

(** The property [k] of a candidate with the property table [fields]. *)
Definition field (fields : list (string * hval)) (k : string) : hval :=
  default HUndefined (lookup_field k fields).

(** A value the checks can take: a string, or something falsy. *)
Definition typed_field (v : hval) : bool :=
  match v with
  | HStr _ => true
  | _ => negb (htruthy v)
  end.

Section Expected.
Context `{Builtins}.

(** A required field is blank when it is missing, falsy, or a string that
    trims to the empty string. *)
Definition blank (v : hval) : bool :=
  match v with
  | HStr s => String.eqb s "" || String.eqb (trim s) ""
  | _ => negb (htruthy v)
  end.

Definition required_errors (fields : list (string * hval)) : list string :=
  (if blank (field fields "name") then ["Name is required"] else [])
  ++ (if blank (field fields "greeting") then ["Greeting is required"] else [])
  ++ (if blank (field fields "message") then ["Message is required"] else []).

(** An image entry is checked when it is a string that is not blank. *)
Definition nonblank (s : string) : bool :=
  negb (String.eqb s "") && negb (String.eqb (trim s) "").

Definition image_message (index : nat) : string :=
  "Image URL " +:+ pretty (index + 1) +:+ " is not valid".

(** The errors of the entry at position [index]: one when it is a
    non-blank string that is not a URL, none otherwise. *)
Definition image_error (index : nat) (url : hval) : list string :=
  match url with
  | HStr s => if nonblank s && negb (URL_parses s) then [image_message index] else []
  | _ => []
  end.

(** The errors of the entries, the first of which is at position [k]. *)
Fixpoint image_errors_from (k : nat) (entries : list hval) : list string :=
  match entries with
  | [] => []
  | url :: rest => image_error k url ++ image_errors_from (S k) rest
  end.

End Expected.

(** The entries of the [images] of a candidate, when it has an array
    there. *)
Definition images_of (h : heap) (fields : list (string * hval)) : option (list hval) :=
  match field fields "images" with
  | HRef a =>
      match h !! a with
      | Some (CArray entries) => Some entries
      | _ => None
      end
  | _ => None
  end.

(** A candidate object whose [name], [greeting] and [message] are strings
    or falsy, and whose [images], when an array, holds strings or falsy
    values. *)
Definition well_typed (h : heap) (sisterData : hval) : bool :=
  match sisterData with
  | HRef c =>
      match h !! c with
      | Some (CObject fields) =>
          typed_field (field fields "name")
          && typed_field (field fields "greeting")
          && typed_field (field fields "message")
          && match field fields "images" with
             | HRef a =>
                 match h !! a with
                 | Some (CArray entries) => forallb typed_field entries
                 | Some (CObject _) => true
                 | None => false
                 end
             | _ => true
             end
      | _ => false
      end
  | _ => false
  end.

Definition expected_errors `{Builtins} (h : heap) (fields : list (string * hval))
    : list string :=
  required_errors fields
  ++ match images_of h fields with
     | Some entries => image_errors_from 0 entries
     | None => []
     end.

(** The heap a call that returns leaves behind, when it started on [h] and
    collected [errs]: the array of errors and the result object on top of
    [h]. *)
Definition heap_after (h : heap) (errs : list hval) : heap :=
  h ++ [CArray errs;
        CObject [("isValid", HBool (Nat.eqb (length errs) 0));
                 ("errors", HRef (length h))]].

(** A computation that writes to nothing but the array of errors, which
    sits on top of [base]. *)
Definition only_errors {A} (base : heap) (m : JS heap A) : Prop :=
  ∀ errs, ∃ c errs', m (base ++ [CArray errs]) = (c, base ++ [CArray errs']).

(** A computation that writes to nothing but the array of errors and then
    either throws or returns the new result object. *)
Definition finishes (base : heap) (m : JS heap hval) : Prop :=
  ∀ errs, ∃ errs',
    m (base ++ [CArray errs]) = (Normal (HRef (S (length base))), heap_after base errs')
    ∨ ∃ e, m (base ++ [CArray errs]) = (Throw e, base ++ [CArray errs']).

(** The call returns a result rather than throws. *)
Definition returns_result `{Builtins} (h : heap) (sisterData : hval) : Prop :=
  ∃ r h', validateSisterData sisterData h = (Normal r, h').

(** What a JavaScript engine does on the strings of the example of the
    specification: none of them is blank, the first image entry is not a
    URL, the second is. *)
Definition reads_the_example `{Builtins} : Prop :=
  nonblank "A" = true ∧ nonblank "G" = true ∧ nonblank "M" = true
  ∧ nonblank "not a url" = true ∧ nonblank "https://example.com/x.jpg" = true
  ∧ URL_parses "not a url" = false ∧ URL_parses "https://example.com/x.jpg" = true.

(** *** Candidates to run the model on *)

(** [{}] *)
Definition empty_candidate : heap := [CObject []].

(** [{name: "A", greeting: "G", message: "M",
      images: ["not a url", "https://example.com/x.jpg"]}], the array at
    reference [1]. *)
Definition candidate_with_images : heap :=
  [CObject [("name", HStr "A"); ("greeting", HStr "G"); ("message", HStr "M");
            ("images", HRef 1)];
   CArray [HStr "not a url"; HStr "https://example.com/x.jpg"]].

(** [{name: "A", greeting: "G", message: "M"}] *)
Definition candidate_without_images : heap :=
  [CObject [("name", HStr "A"); ("greeting", HStr "G"); ("message", HStr "M")]].

(** [{name: 5}] *)
Definition candidate_with_numeric_name : heap := [CObject [("name", HNum 5)]].

(** ** A small engine to run the model on

    The built-ins restricted to ASCII text: enough to evaluate the model on
    the examples of the specification.  [ascii_URL_parses] accepts the
    strings that begin with a URL scheme and a colon, which the URL
    standard requires of every absolute URL. *)
Definition ascii_toLower (c : ascii) : ascii :=
  let n := nat_of_ascii c in
  if (65 <=? n) && (n <=? 90) then ascii_of_nat (n + 32) else c.

Fixpoint ascii_toLowerCase (s : string) : string :=
  match s with
  | EmptyString => EmptyString
  | String c rest => String (ascii_toLower c) (ascii_toLowerCase rest)
  end.

Definition ascii_is_space (c : ascii) : bool :=
  let n := nat_of_ascii c in
  ((9 <=? n) && (n <=? 13)) || (n =? 32).

Fixpoint ascii_trim_start (s : string) : string :=
  match s with
  | EmptyString => EmptyString
  | String c rest => if ascii_is_space c then ascii_trim_start rest else s
  end.

Fixpoint ascii_trim_end (s : string) : string :=
  match s with
  | EmptyString => EmptyString
  | String c rest =>
      match ascii_trim_end rest with
      | EmptyString => if ascii_is_space c then EmptyString else String c EmptyString
      | rest' => String c rest'
      end
  end.

Definition ascii_trim (s : string) : string := ascii_trim_end (ascii_trim_start s).

Definition ascii_is_alpha (c : ascii) : bool :=
  let n := nat_of_ascii (ascii_toLower c) in (97 <=? n) && (n <=? 122).

Definition ascii_is_scheme_char (c : ascii) : bool :=
  let n := nat_of_ascii c in
  ascii_is_alpha c || ((48 <=? n) && (n <=? 57)) || (n =? 43) || (n =? 45) || (n =? 46).

Fixpoint ascii_scheme_rest (s : string) : bool :=
  match s with
  | EmptyString => false
  | String c rest =>
      if (nat_of_ascii c =? 58) then true
      else ascii_is_scheme_char c && ascii_scheme_rest rest
  end.

Definition ascii_URL_parses (s : string) : bool :=
  match s with
  | EmptyString => false
  | String c rest => ascii_is_alpha c && ascii_scheme_rest rest
  end.

Definition ascii_engine : Builtins :=
  {| toLowerCase := ascii_toLowerCase; trim := ascii_trim; URL_parses := ascii_URL_parses |}.

(** What a lookup answers when it finds nothing or fails. *)
Definition lookup_default (c : lookup) : value :=
  match c with
  | Exists _ => VBool false
  | Find _ => VNull
  end.

(** ** Part III: the helpers of the page *)

(** *** Toast styling

    <<
    function getToastIcon(type) {
        switch (type) {
            case 'success': return 'check-circle';
            case 'error': return 'exclamation-circle';
            case 'warning': return 'exclamation-triangle';
            default: return 'info-circle';
        }
    }
    >>
    A [switch] compares with [===]. *)
Definition getToastIcon (type : value) : string :=
  if strict_eq type (VStr "success") then "check-circle"
  else if strict_eq type (VStr "error") then "exclamation-circle"
  else if strict_eq type (VStr "warning") then "exclamation-triangle"
  else "info-circle".

(** <<
    function getToastColor(type) {
        switch (type) {
            case 'success': return '#28a745';
            case 'error': return '#dc3545';
            case 'warning': return '#ffc107';
            default: return '#17a2b8';
        }
    }
    >> *)
Definition getToastColor (type : value) : string :=
  if strict_eq type (VStr "success") then "#28a745"
  else if strict_eq type (VStr "error") then "#dc3545"
  else if strict_eq type (VStr "warning") then "#ffc107"
  else "#17a2b8".

(** *** Text formatting *)

(** The document object model belongs to the browser.  [innerHTML_of_text v]
    is what [temp.innerHTML] reads after [temp.textContent = v] on a new
    [div]: the serialisation of a text node. *)
Class DOM := {
  innerHTML_of_text : value → string;
}.

(** <<
    function sanitizeHTML(html) {
        const temp = document.createElement('div');
        temp.textContent = html;
        return temp.innerHTML;
    }
    >> *)
Definition sanitizeHTML `{DOM} (html : value) : string := innerHTML_of_text html.

(** [s.replace(/\n/g, '<br>')]: every line feed becomes the four characters
    of the tag. *)
Fixpoint replace_newlines (s : string) : string :=
  match s with
  | EmptyString => EmptyString
  | String c rest =>
      if Ascii.eqb c "010"%char then "<br>" +:+ replace_newlines rest
      else String c (replace_newlines rest)
  end.

(** <<
    function formatText(text) {
        if (!text) return '';
        const sanitized = sanitizeHTML(text);
        return sanitized.replace(/\n/g, '<br>');
    }
    >> *)
Definition formatText `{DOM} (text : value) : string :=
  if negb (truthy text) then ""
  else
    let sanitized := sanitizeHTML text in
    replace_newlines sanitized.

(** Whether the character [c] occurs in [s]. *)
Fixpoint occurs (c : ascii) (s : string) : bool :=
  match s with
  | EmptyString => false
  | String c' rest => Ascii.eqb c c' || occurs c rest
  end.

(** A string in which every ["<"] opens a ["<br>"]. *)
Inductive only_br_tags : string → Prop :=
  | only_br_empty : only_br_tags ""
  | only_br_char c s : c ≠ "<"%char → only_br_tags s → only_br_tags (String c s)
  | only_br_tag s : only_br_tags s → only_br_tags ("<br>" +:+ s).

(** *** Debouncing

    <<
    function debounce(func, wait) {
        let timeout;
        return function executedFunction(...args) {
            const later = () => {
                clearTimeout(timeout);
                func(...args);
            };
            clearTimeout(timeout);
            timeout = setTimeout(later, wait);
        };
    }
    >>
    The closure owns the variable [timeout]; the timers are the browser's.
    A timer is pending from [setTimeout] until it fires or is cleared, and
    fires no earlier than its delay after it was set.  The model keeps the
    timers this closure has set, the clock in milliseconds, and a history
    of the calls of the debounced function and of the invocations of
    [func], which is taken not to call the debounced function itself. *)
Section Debounce.
Variable Args : Type.

Inductive entry :=
  | Called (time : nat) (args : Args)
  | Invoked (time : nat) (args : Args).

Record timer := { timer_id : nat; due : nat; later_args : Args }.

Record debounced := {
  timeout : option nat;
  pending : list timer;
  next_timer : nat;
  now : nat;
  history : list entry;
}.

(** [clearTimeout(id)]: nothing happens for [undefined] or for a timer that
    is not pending. *)
Definition clearTimeout (id : option nat) (d : debounced) : debounced :=
  match id with
  | None => d
  | Some i =>
      {| timeout := timeout d;
         pending := List.filter (λ t, negb (Nat.eqb (timer_id t) i)) (pending d);
         next_timer := next_timer d; now := now d; history := history d |}
  end.

(** [setTimeout(later, delay)], [later] closing over [args]: a new pending
    timer, whose id is returned. *)
Definition setTimeout (args : Args) (delay : nat) (d : debounced) : nat * debounced :=
  (next_timer d,
   {| timeout := timeout d;
      pending := pending d ++ [{| timer_id := next_timer d; due := now d + delay;
                                  later_args := args |}];
      next_timer := S (next_timer d); now := now d; history := history d |}).

Definition log (e : entry) (d : debounced) : debounced :=
  {| timeout := timeout d; pending := pending d; next_timer := next_timer d;
     now := now d; history := history d ++ [e] |}.

(** A call of the debounced function. *)
Definition executedFunction (wait : nat) (args : Args) (d : debounced) : debounced :=
  let d := log (Called (now d) args) d in
  let d := clearTimeout (timeout d) d in
  let '(id, d) := setTimeout args wait d in
  {| timeout := Some id; pending := pending d; next_timer := next_timer d;
     now := now d; history := history d |}.

(** The body of [later]. *)
Definition later (args : Args) (d : debounced) : debounced :=
  let d := clearTimeout (timeout d) d in
  log (Invoked (now d) args) d.

(** The pending timer [id] fires, when it is due: it stops being pending
    and its callback runs. *)
Definition fire (id : nat) (d : debounced) : option debounced :=
  match List.find (λ t, Nat.eqb (timer_id t) id) (pending d) with
  | Some t =>
      if due t <=? now d then
        Some (later (later_args t)
                {| timeout := timeout d;
                   pending := List.filter (λ t, negb (Nat.eqb (timer_id t) id)) (pending d);
                   next_timer := next_timer d; now := now d; history := history d |})
      else None
  | None => None
  end.

Definition elapse (ms : nat) (d : debounced) : debounced :=
  {| timeout := timeout d; pending := pending d; next_timer := next_timer d;
     now := now d + ms; history := history d |}.

(** What can happen to a debounced function: it is called, time passes, a
    timer fires. *)
Inductive event :=
  | Call (args : Args)
  | Elapse (ms : nat)
  | Fire (id : nat).

Definition step (wait : nat) (e : event) (d : debounced) : option debounced :=
  match e with
  | Call args => Some (executedFunction wait args d)
  | Elapse ms => Some (elapse ms d)
  | Fire id => fire id d
  end.

Fixpoint run (wait : nat) (es : list event) (d : debounced) : option debounced :=
  match es with
  | [] => Some d
  | e :: rest =>
      match step wait e d with
      | Some d' => run wait rest d'
      | None => None
      end
  end.

(** [debounce(func, wait)] at time [t]: [let timeout;] and nothing else. *)
Definition debounce (t : nat) : debounced :=
  {| timeout := None; pending := []; next_timer := 1; now := t; history := [] |}.

(** The arguments of the calls and of the invocations, in order. *)
Definition called_args (h : list entry) : list Args :=
  omap (λ e, match e with Called _ a => Some a | Invoked _ _ => None end) h.

Definition invoked_args (h : list entry) : list Args :=
  omap (λ e, match e with Invoked _ a => Some a | Called _ _ => None end) h.

(** The call that is waiting for its invocation at the end of a history:
    the last call, unless [func] has been invoked since. *)
Definition waiting (h : list entry) : option (nat * Args) :=
  fold_left (λ w e, match e with
                    | Called t a => Some (t, a)
                    | Invoked _ _ => None
                    end) h None.

Definition entry_time (e : entry) : nat :=
  match e with
  | Called t _ => t
  | Invoked t _ => t
  end.

End Debounce.

Arguments Called {Args} time args.
Arguments Invoked {Args} time args.
Arguments Call {Args} args.
Arguments Elapse {Args} ms.
Arguments Fire {Args} id.
Arguments debounce {Args} t.

(** *** Probing an image

    <<
    function isValidImageURL(url) {
        return new Promise((resolve) => {
            if (!url || url.trim() === '') {
                resolve(false);
                return;
            }
            const img = new Image();
            img.onload = () => resolve(true);
            img.onerror = () => resolve(false);
            img.src = url;
            setTimeout(() => resolve(false), 10000);
        });
    }
    >>
    A promise settles once: a [resolve] after that does nothing.  An
    executor that throws rejects the promise. *)
Inductive settlement :=
  | Pending
  | Fulfilled (v : bool)
  | Failed (e : exn).

(** The promise, the address the image was asked to load, and whether the
    ten-second timer was set. *)
Record probe := {
  promise : settlement;
  requested : option value;
  timer_set : bool;
}.

Definition resolve (v : bool) (p : probe) : probe :=
  match promise p with
  | Pending => {| promise := Fulfilled v; requested := requested p; timer_set := timer_set p |}
  | _ => p
  end.

(** What the browser reports back. *)
Inductive image_event :=
  | ImageLoaded
  | ImageFailed
  | TimedOut.

Section Probe.
Context `{Builtins}.

(** [!url || url.trim() === ''] *)
Definition falsy_or_blank (url : value) : JS () bool :=
  if negb (truthy url) then mret true
  else
    t ← invoke url "trim";
    mret (strict_eq t (VStr "")).

Definition isValidImageURL (url : value) : probe :=
  let unsettled := {| promise := Pending; requested := None; timer_set := false |} in
  match (falsy_or_blank url ()).1 with
  | Throw e => {| promise := Failed e; requested := None; timer_set := false |}
  | Normal true => resolve false unsettled
  | Normal false => {| promise := Pending; requested := Some url; timer_set := true |}
  end.

(** [img.onload], [img.onerror] and the callback of the timer.  They exist
    only when the image was requested. *)
Definition react (e : image_event) (p : probe) : probe :=
  match requested p with
  | None => p
  | Some _ =>
      match e with
      | ImageLoaded => resolve true p
      | ImageFailed => resolve false p
      | TimedOut => resolve false p
      end
  end.

Definition settle (es : list image_event) (p : probe) : probe :=
  fold_left (λ p e, react e p) es p.

End Probe.

(** *** Copying to the clipboard

    <<
    async function copyToClipboard(text) {
        try {
            if (navigator.clipboard && navigator.clipboard.writeText) {
                await navigator.clipboard.writeText(text);
                return true;
            } else {
                const textArea = document.createElement('textarea');
                textArea.value = text;
                ...
                document.body.appendChild(textArea);
                textArea.focus();
                textArea.select();
                const result = document.execCommand('copy');
                document.body.removeChild(textArea);
                return result;
            }
        } catch (err) {
            console.error('Failed to copy text: ', err);
            return false;
        }
    }
    >> *)

(** The browser: whether it has [navigator.clipboard.writeText], whether the
    promise of [writeText] fulfils, and what [document.execCommand('copy')]
    returns, [None] when it throws. *)
Record browser := {
  has_writeText : bool;
  writeText_fulfils : bool;
  execCommand_copy : option bool;
}.

(** The children of [document.body], a node being known by its position,
    the system clipboard and the console. *)
Record page := {
  children : list string;
  clipboard : option string;
  page_console : list (string * exn);
}.

Section Clipboard.
Variable host : browser.

(** [await navigator.clipboard.writeText(text)] *)
Definition writeText (text : string) : JS page () :=
  if writeText_fulfils host
  then modify (λ p, {| children := children p; clipboard := Some text;
                       page_console := page_console p |})
  else throw (Rejected "NotAllowedError").

(** [document.body.appendChild(textArea)], the text area holding [text]:
    the new last child, whose position is returned. *)
Definition appendChild (text : string) : JS page nat :=
  λ p, (Normal (length (children p)),
        {| children := children p ++ [text]; clipboard := clipboard p;
           page_console := page_console p |}).

(** [document.body.removeChild(node)] *)
Definition removeChild (node : nat) : JS page () :=
  modify (λ p, {| children := take node (children p) ++ drop (S node) (children p);
                  clipboard := clipboard p; page_console := page_console p |}).

(** [document.execCommand('copy')] with the text area [node] selected: when
    it answers [true] the selection is on the clipboard. *)
Definition execCommand (node : nat) : JS page bool :=
  match execCommand_copy host with
  | None => throw (Error "execCommand")
  | Some false => mret false
  | Some true =>
      λ p, (Normal true,
            {| children := children p; clipboard := children p !! node;
               page_console := page_console p |})
  end.

Definition copyToClipboard (text : string) : JS page bool :=
  try_catch
    (if has_writeText host then
       writeText text;;
       mret true
     else
       textArea ← appendChild text;
       result ← execCommand textArea;
       removeChild textArea;;
       mret result)
    (λ err,
       modify (λ p, {| children := children p; clipboard := clipboard p;
                       page_console := page_console p ++ [("Failed to copy text: ", err)] |});;
       mret false).

End Clipboard.

(** *** A document object model to run the model on

    The serialisation of a text restricted to ASCII strings: the three
    characters of markup become character references. *)
Fixpoint ascii_escape (s : string) : string :=
  match s with
  | EmptyString => EmptyString
  | String c rest =>
      (if Ascii.eqb c "&"%char then "&amp;"
       else if Ascii.eqb c "<"%char then "&lt;"
       else if Ascii.eqb c ">"%char then "&gt;"
       else String c EmptyString) +:+ ascii_escape rest
  end.

Definition ascii_dom : DOM :=
  {| innerHTML_of_text := λ v, match v with VStr s => ascii_escape s | _ => "" end |}.

(** *** Further sessions to run the model on *)

(** A session whose store has been loaded. *)
Definition loaded_session : session :=
  {| sistersData := VArr sample_document; fetches := 0; console := [] |}.

(** A session whose store holds, after a first Record, something that is
    not a Record, and then a second Record. *)
Definition mixed_session : session :=
  {| sistersData := VArr [sample_record "Meera"; VNum 7; sample_record "Anu"];
     fetches := 1; console := [] |}.

(** A session whose store is an object. *)
Definition object_session : session :=
  {| sistersData := VObj [("sisters", VArr sample_document)]; fetches := 1;
     console := [] |}.

(** *** What a debounced function keeps *)

Section DebounceInvariant.
Context {Args : Type}.
Variable wait : nat.

(** Every invocation of [func] in the history comes right after the call
    it has the arguments of, at least [wait] after it and after everything
    before it. *)
Definition only_after_wait (h : list (entry Args)) : Prop :=
  ∀ h1 t' a' h2,
    h = h1 ++ Invoked t' a' :: h2 →
    ∃ h0 t, h1 = h0 ++ [Called t a'] ∧ t + wait ≤ t'
            ∧ Forall (λ e, entry_time Args e + wait ≤ t') h1.

(** The invariant of the states a debounced function goes through. *)
Definition debounce_invariant (d : debounced Args) : Prop :=
  Forall (λ e, entry_time Args e ≤ now Args d) (history Args d)
  ∧ only_after_wait (history Args d)
  ∧ match waiting Args (history Args d) with
    | None =>
        pending Args d = []
        ∧ invoked_args Args (history Args d) `sublist_of` called_args Args (history Args d)
    | Some (t, a) =>
        ∃ id h0,
          pending Args d = [{| timer_id := id; due := t + wait; later_args := a |}]
          ∧ timeout Args d = Some id
          ∧ history Args d = h0 ++ [Called t a]
          ∧ Forall (λ e, entry_time Args e ≤ t) h0
          ∧ invoked_args Args h0 `sublist_of` called_args Args h0
    end.

End DebounceInvariant.

(** A burst of three calls, the last of which gets through, and a fourth
    call later on. *)
Definition burst : list (event nat) :=
  [Call 1; Elapse 100; Call 2; Elapse 299; Call 3; Elapse 300; Fire 3; Elapse 10; Call 4].

Definition after_burst : debounced nat :=
  {| timeout := Some 4;
     pending := [{| timer_id := 4; due := 1009; later_args := 4 |}];
     next_timer := 5;
     now := 709;
     history := [Called 0 1; Called 100 2; Called 399 3; Invoked 699 3; Called 709 4] |}.

(** A page with two children and an empty clipboard. *)
Definition sample_page : page :=
  {| children := ["header"; "main"]; clipboard := None; page_console := [] |}.

(** A browser without the Clipboard API whose [execCommand] throws. *)
Definition old_browser : browser :=
  {| has_writeText := false; writeText_fulfils := false; execCommand_copy := None |}.

(** * Properties *)

(** ** The monad *)

Lemma run_bind {St A B} (m : JS St A) (f : A → JS St B) (s : St) :
  (m ≫= f) s =
  match m s with
  | (Normal a, s') => f a s'
  | (Throw e, s') => (Throw e, s')
  end.
Proof. reflexivity. Qed.

Lemma run_ret {St A} (a : A) (s : St) : (mret a : JS St A) s = (Normal a, s).
Proof. reflexivity. Qed.

Lemma run_try_catch {St A} (body : JS St A) (handler : exn → JS St A) (s : St) :
  try_catch body handler s =
  match body s with
  | (Normal a, s') => (Normal a, s')
  | (Throw e, s') => handler e s'
  end.
Proof. reflexivity. Qed.

(** ** The loader *)

Lemma load_fails_no_document fr : load_fails fr ↔ loaded_document fr = None.
Proof.
  split.
  - intros [|r Hr|r Hr]; simpl; [done|by rewrite Hr|rewrite Hr; by destruct (ok r)].
  - destruct fr as [|r]; simpl; [constructor|].
    destruct (ok r) eqn:Hok; [|intros _; by apply fails_status].
    destruct (content r) eqn:Hc; [intros _; by apply fails_parse|done].
Qed.

Section LoaderFacts.
Variable network : nat → fetch_result.

(** A successful load stores the parsed document whole and returns it. *)
Lemma load_run_ok s v :
  loaded_document (network (fetches s)) = Some v →
  loadSistersData network s =
    (Normal v, {| sistersData := v; fetches := S (fetches s); console := console s |}).
Proof.
  unfold loaded_document, loadSistersData. intros Hdoc.
  rewrite run_try_catch, run_bind. unfold fetch.
  destruct (network (fetches s)) as [|r]; [done|].
  destruct (ok r) eqn:Hok; [|done].
  destruct (content r) as [|v'] eqn:Hc; [done|]. simplify_eq.
  rewrite !run_bind. simpl. unfold json. rewrite !run_bind, Hc. reflexivity.
Qed.

(** A failed load logs the error, stores the empty array and returns it. *)
Lemma load_run_fail s :
  load_fails (network (fetches s)) →
  ∃ e, loadSistersData network s =
    (Normal (VArr []),
     {| sistersData := VArr []; fetches := S (fetches s);
        console := console s ++ [("Error loading sisters data:", e)] |}).
Proof.
  unfold loadSistersData. intros Hfail.
  rewrite run_try_catch, run_bind. unfold fetch.
  inversion Hfail as [Hn|r Hr Hn|r Hr Hn]; [by eexists| |].
  - eexists. rewrite run_bind. simpl. rewrite Hr. reflexivity.
  - destruct (ok r) eqn:Hok.
    + eexists. rewrite !run_bind. simpl. unfold json. rewrite !run_bind, Hr. reflexivity.
    + eexists. rewrite run_bind. reflexivity.
Qed.

(** In every case: the load returns normally, with the store it leaves. *)
Lemma load_run s :
  ∃ log, loadSistersData network s =
    (Normal (default (VArr []) (loaded_document (network (fetches s)))),
     {| sistersData := default (VArr []) (loaded_document (network (fetches s)));
        fetches := S (fetches s); console := console s ++ log |}).
Proof.
  destruct (loaded_document (network (fetches s))) as [v|] eqn:Hdoc.
  - exists []. rewrite app_nil_r. by apply load_run_ok.
  - apply load_fails_no_document in Hdoc.
    destruct (load_run_fail s Hdoc) as [e He]. by exists [("Error loading sisters data:", e)].
Qed.

End LoaderFacts.

(** ** The scans *)

Section ScanFacts.
Context `{Builtins}.

Lemma matchesb_spec name r : matchesb name r = true ↔ matches name r.
Proof.
  unfold matchesb, matches. split.
  - destruct (record_name r) as [n|]; [|done].
    intros Heq%String.eqb_eq. by exists n.
  - intros (n & -> & Heq). by apply String.eqb_eq.
Qed.

Lemma matchesb_false name r : matchesb name r = false ↔ ¬ matches name r.
Proof. rewrite <-matchesb_spec. by destruct (matchesb name r). Qed.

Lemma normalized_string name (s : session) :
  normalized (VStr name) s = (Normal (VStr (key name)), s).
Proof. reflexivity. Qed.


(** The callback on a Record: the comparison of the two keys. *)
Lemma name_matches_record name r (s : session) :
  is_record r →
  name_matches (VStr (key name)) r s = (Normal (VBool (matchesb name r)), s).
Proof.
  intros [n Hn]. unfold matchesb. rewrite Hn.
  destruct r as [| | | | |?|fields]; try done. simpl in Hn.
  unfold name_matches. rewrite run_bind. simpl.
  destruct (lookup_field "name" fields) as [[]|]; try done. by simplify_eq.
Qed.

(** The callback on any value: it leaves the session alone, throws or
    answers a boolean, and answers [true] only on a Record. *)
Lemma name_matches_cases k x (s : session) :
  (∃ e, name_matches k x s = (Throw e, s))
  ∨ name_matches k x s = (Normal (VBool false), s)
  ∨ (name_matches k x s = (Normal (VBool true), s) ∧ is_record x).
Proof.
  unfold name_matches. rewrite run_bind.
  destruct x as [| | | | |?|fields]; simpl; eauto.
  destruct (lookup_field "name" fields) as [[| | | |n| |]|] eqn:Hf; simpl; eauto.
  rewrite run_bind, normalized_string, run_ret.
  destruct (strict_eq (VStr (key n)) k) eqn:Hk; [|by right; left].
  right; right. split; [done|]. exists n. simpl. by rewrite Hf.
Qed.

(** [some] and [find] walk the array alike. *)
Lemma loops_agree k l (s : session) :
  (∃ e, some_loop (name_matches k) l s = (Throw e, s)
        ∧ find_loop (name_matches k) l s = (Throw e, s))
  ∨ (some_loop (name_matches k) l s = (Normal (VBool false), s)
     ∧ find_loop (name_matches k) l s = (Normal VUndefined, s))
  ∨ (∃ x, some_loop (name_matches k) l s = (Normal (VBool true), s)
          ∧ find_loop (name_matches k) l s = (Normal x, s) ∧ is_record x).
Proof.
  induction l as [|x l IH]; [by right; left|].
  simpl. rewrite !run_bind.
  destruct (name_matches_cases k x s) as [[e He]|[He|[He Hrec]]]; rewrite He; simpl.
  - left. eauto.
  - exact IH.
  - right; right. eauto.
Qed.

Lemma some_loop_records name l (s : session) :
  Forall is_record l →
  some_loop (name_matches (VStr (key name))) l s
  = (Normal (VBool (existsb (matchesb name) l)), s).
Proof.
  induction 1 as [|x l Hx _ IH]; [done|].
  simpl. rewrite run_bind, name_matches_record by done. simpl.
  by destruct (matchesb name x).
Qed.

Lemma find_loop_records name l (s : session) :
  Forall is_record l →
  find_loop (name_matches (VStr (key name))) l s
  = (Normal (default VUndefined (List.find (matchesb name) l)), s).
Proof.
  induction 1 as [|x l Hx _ IH]; [done|].
  simpl. rewrite run_bind, name_matches_record by done. simpl.
  by destruct (matchesb name x).
Qed.

(** [List.find] is the first match in order. *)
Lemma find_is_first_match name l r :
  List.find (matchesb name) l = Some r → first_match name l r.
Proof.
  induction l as [|x l IH]; [done|]. simpl.
  destruct (matchesb name x) eqn:Hx.
  - intros [= ->]. exists [], l. split_and!; [done|constructor|by apply matchesb_spec].
  - intros (before & after & -> & Hb & Hr)%IH.
    exists (x :: before), after. split_and!; [done| |done].
    constructor; [by apply matchesb_false|done].
Qed.

Lemma find_none_no_match name l :
  List.find (matchesb name) l = None → no_match name l.
Proof.
  unfold no_match. induction l as [|x l IH]; [constructor|]. simpl.
  destruct (matchesb name x) eqn:Hx; [done|].
  intros Hl. constructor; [by apply matchesb_false|by apply IH].
Qed.

Lemma existsb_first_match name l :
  existsb (matchesb name) l = true ↔ ∃ r, first_match name l r.
Proof.
  split.
  - intros Hex. destruct (List.find (matchesb name) l) as [r|] eqn:Hf.
    + exists r. by apply find_is_first_match.
    + apply existsb_exists in Hex as (x & Hin & Hx).
      eapply find_none in Hf; [|done]. congruence.
  - intros (r & before & after & -> & _ & Hr).
    apply existsb_exists. exists r. split; [|by apply matchesb_spec].
    apply in_or_app. right. by left.
Qed.

(** A Record is an object: it is truthy, so [sister || null] keeps it. *)
Lemma record_truthy r : is_record r → truthy r = true.
Proof. intros [n Hn]. by destruct r. Qed.

Lemma record_not_null r : is_record r → r ≠ VNull.
Proof. intros [n Hn] ->. done. Qed.

End ScanFacts.

(** ** Computations that only compute *)

Lemma pure_ret {St A} (a : A) : pure (mret a : JS St A).
Proof. by exists (Normal a). Qed.

Lemma pure_throw {St A} (e : exn) : pure (throw e : JS St A).
Proof. by exists (Throw e). Qed.

Lemma pure_bind {St A B} (m : JS St A) (f : A → JS St B) :
  pure m → (∀ a, pure (f a)) → pure (m ≫= f).
Proof.
  intros [[a|e] Hm] Hf.
  - destruct (Hf a) as [c Hc]. exists c. intros s. by rewrite run_bind, Hm, Hc.
  - exists (Throw e). intros s. by rewrite run_bind, Hm.
Qed.

Lemma pure_get_prop {St} v k : pure (get_prop v k : JS St value).
Proof. destruct v; simpl; try apply pure_ret; apply pure_throw. Qed.

Section Purity.
Context `{Builtins}.

Lemma pure_invoke {St} v m : pure (invoke v m : JS St value).
Proof.
  destruct v; simpl; try apply pure_throw.
  repeat case_match; try apply pure_ret; apply pure_throw.
Qed.

Lemma pure_normalized name : pure (normalized name).
Proof. apply pure_bind; [apply pure_invoke|intros; apply pure_invoke]. Qed.

Lemma pure_name_matches k x : pure (name_matches k x).
Proof.
  apply pure_bind; [apply pure_get_prop|intros n].
  apply pure_bind; [apply pure_normalized|intros; apply pure_ret].
Qed.

Lemma pure_some sd k : pure (some sd (name_matches k)).
Proof.
  destruct sd as [| | | | |l|]; simpl; try apply pure_throw.
  induction l as [|x l IH]; simpl; [apply pure_ret|].
  apply pure_bind; [apply pure_name_matches|intros b].
  destruct (truthy b); [apply pure_ret|done].
Qed.

Lemma pure_find sd k : pure (find sd (name_matches k)).
Proof.
  destruct sd as [| | | | |l|]; simpl; try apply pure_throw.
  induction l as [|x l IH]; simpl; [apply pure_ret|].
  apply pure_bind; [apply pure_name_matches|intros b].
  destruct (truthy b); [apply pure_ret|done].
Qed.

(** A scan leaves the session as it is, and its answer depends on the
    session through the store only. *)
Lemma exists_scan_run name :
  ∃ F : value → completion value, ∀ s, exists_scan name s = (F (sistersData s), s).
Proof.
  unfold exists_scan. destruct (pure_normalized name) as [[k|e] Hk].
  - assert (∃ F : value → completion value,
              ∀ sd s, some sd (name_matches k) s = (F sd, s)) as [F HF].
    { exists (λ sd, (some sd (name_matches k)
                       {| sistersData := VNull; fetches := 0; console := [] |}).1).
      intros sd s. destruct (pure_some sd k) as [c Hc]. by rewrite !Hc. }
    exists F. intros s. rewrite run_bind, Hk, run_bind. simpl. apply HF.
  - exists (λ _, Throw e). intros s. by rewrite run_bind, Hk.
Qed.

Lemma find_scan_run name :
  ∃ G : value → completion value, ∀ s, find_scan name s = (G (sistersData s), s).
Proof.
  unfold find_scan. destruct (pure_normalized name) as [[k|e] Hk].
  - assert (∃ G : value → completion value,
              ∀ sd s, (sister ← find sd (name_matches k);
                       mret (if truthy sister then sister else VNull)) s = (G sd, s))
      as [G HG].
    { exists (λ sd, ((sister ← find sd (name_matches k);
                      mret (if truthy sister then sister else VNull))
                       {| sistersData := VNull; fetches := 0; console := [] |}).1).
      intros sd s.
      assert (pure (sister ← find sd (name_matches k);
                    mret (if truthy sister then sister else VNull) : JS session value))
        as [c Hc] by (apply pure_bind; [apply pure_find|intros; apply pure_ret]).
      by rewrite !Hc. }
    exists G. intros s. rewrite run_bind, Hk, run_bind. simpl. apply HG.
  - exists (λ _, Throw e). intros s. by rewrite run_bind, Hk.
Qed.

(** The two scans agree on every session: both throw, or neither finds a
    match, or both find one, and then [find] hands out a Record. *)
Lemma scans_agree name (s : session) :
  (∃ e e', exists_scan name s = (Throw e, s) ∧ find_scan name s = (Throw e', s))
  ∨ (exists_scan name s = (Normal (VBool false), s)
     ∧ find_scan name s = (Normal VNull, s))
  ∨ (∃ x, exists_scan name s = (Normal (VBool true), s)
          ∧ find_scan name s = (Normal x, s) ∧ is_record x).
Proof.
  unfold exists_scan, find_scan. rewrite !run_bind.
  destruct (pure_normalized name) as [[k|e] Hk]; rewrite Hk; [|by left; eauto].
  rewrite !run_bind. simpl.
  destruct (sistersData s) as [| | | | |l|]; simpl;
    try (left; eexists _, _; split; reflexivity).
  rewrite run_bind.
  destruct (loops_agree k l s) as [(e & -> & ->)|[[-> ->]|(x & -> & -> & Hx)]].
  - left. eauto.
  - right; left. done.
  - right; right. exists x. rewrite run_ret, record_truthy by done. done.
Qed.

End Purity.

(** ** The lookups *)

Section LookupFacts.
Context `{Builtins}.
Variable network : nat → fetch_result.

Lemma length_is_zero (n : nat) : (Z.of_nat n =? 0)%Z = Nat.eqb n 0.
Proof. by destruct n. Qed.

(** The lazy population throws only on a store without properties, and
    otherwise loads exactly when the length of the store is [0]. *)
Lemma ensure_loaded_run s :
  (∃ e, ensure_loaded network s = (Throw e, s)
        ∧ (sistersData s = VUndefined ∨ sistersData s = VNull))
  ∨ ensure_loaded network s =
      (Normal (), if store_is_empty (sistersData s)
                  then (loadSistersData network s).2 else s).
Proof.
  unfold ensure_loaded. rewrite run_bind. simpl.
  destruct (load_run network s) as [log Hload].
  assert (∀ b : bool,
    when b (loadSistersData network;; mret ()) s =
      (Normal (), if b then (loadSistersData network s).2 else s)) as Hwhen.
  { intros [|]; simpl; [|done]. by rewrite run_bind, Hload. }
  destruct (sistersData s) as [| | | |str|l|fields]; rewrite run_bind; simpl;
    try (by left; eauto); right; try done.
  - rewrite Hwhen. by rewrite length_is_zero.
  - rewrite Hwhen. by rewrite length_is_zero.
Qed.

Lemma populated_run s :
  populated network s =
    if store_is_empty (sistersData s) then (loadSistersData network s).2 else s.
Proof.
  unfold populated.
  destruct (ensure_loaded_run s) as [(e & -> & [Hs|Hs])| ->]; [| |done];
    by rewrite Hs.
Qed.

(** A lookup issues one request when the store is empty and none
    otherwise. *)
Lemma populated_fetches s :
  fetches (populated network s) =
    if store_is_empty (sistersData s) then S (fetches s) else fetches s.
Proof.
  rewrite populated_run. destruct (store_is_empty (sistersData s)); [|done].
  destruct (load_run network s) as [log ->]. done.
Qed.

(** A store that is not empty is not replaced. *)
Lemma populated_store s :
  store_is_empty (sistersData s) = false → populated network s = s.
Proof. intros Hs. by rewrite populated_run, Hs. Qed.

(** The shape both lookups share: populate, scan, and turn a throw of
    either step into a logged default. *)
Lemma guarded_run (scan : JS session value) msg dflt s :
  (∀ t, (scan t).2 = t) →
  try_catch (ensure_loaded network;; scan)
    (λ error, console_error msg error;; mret dflt) s =
  match ensure_loaded network s with
  | (Throw e, _) => (Normal dflt, (console_error msg e s).2)
  | (Normal _, _) =>
      match (scan (populated network s)).1 with
      | Normal v => (Normal v, populated network s)
      | Throw e => (Normal dflt, (console_error msg e (populated network s)).2)
      end
  end.
Proof.
  intros Hscan. rewrite run_try_catch, run_bind. unfold populated.
  destruct (ensure_loaded_run s) as [(e & -> & _)| ->]; [done|]. simpl.
  set (p := if store_is_empty (sistersData s) then _ else _).
  specialize (Hscan p). destruct (scan p) as [[v|e] p']; simpl in *; by subst.
Qed.

Lemma exists_scan_state name t : (exists_scan name t).2 = t.
Proof. destruct (exists_scan_run name) as [F ->]. done. Qed.

Lemma find_scan_state name t : (find_scan name t).2 = t.
Proof. destruct (find_scan_run name) as [G ->]. done. Qed.

Lemma checkSisterExists_run name s :
  checkSisterExists network name s =
  match ensure_loaded network s with
  | (Throw e, _) =>
      (Normal (VBool false), (console_error "Error checking sister existence:" e s).2)
  | (Normal _, _) =>
      match (exists_scan name (populated network s)).1 with
      | Normal v => (Normal v, populated network s)
      | Throw e =>
          (Normal (VBool false),
           (console_error "Error checking sister existence:" e (populated network s)).2)
      end
  end.
Proof. apply (guarded_run (exists_scan name)), exists_scan_state. Qed.

Lemma getSisterData_run name s :
  getSisterData network name s =
  match ensure_loaded network s with
  | (Throw e, _) =>
      (Normal VNull, (console_error "Error getting sister data:" e s).2)
  | (Normal _, _) =>
      match (find_scan name (populated network s)).1 with
      | Normal v => (Normal v, populated network s)
      | Throw e =>
          (Normal VNull,
           (console_error "Error getting sister data:" e (populated network s)).2)
      end
  end.
Proof. apply (guarded_run (find_scan name)), find_scan_state. Qed.

(** On a store of Records no step throws. *)
Lemma ensure_loaded_on_array s l :
  sistersData (populated network s) = VArr l →
  ensure_loaded network s = (Normal (), populated network s).
Proof.
  intros Hl. destruct (ensure_loaded_run s) as [(e & He & Hs)|He].
  - unfold populated in Hl. rewrite He in Hl. simpl in Hl. destruct Hs; congruence.
  - by rewrite populated_run.
Qed.

Lemma exists_scan_records name (s : session) l :
  sistersData s = VArr l → Forall is_record l →
  exists_scan (VStr name) s = (Normal (VBool (existsb (matchesb name) l)), s).
Proof.
  intros Hs Hl. unfold exists_scan.
  rewrite run_bind, normalized_string, run_bind. simpl. rewrite Hs. simpl.
  by apply some_loop_records.
Qed.

Lemma find_scan_records name (s : session) l :
  sistersData s = VArr l → Forall is_record l →
  find_scan (VStr name) s =
    (Normal (default VNull (List.find (matchesb name) l)), s).
Proof.
  intros Hs Hl. unfold find_scan.
  rewrite run_bind, normalized_string, run_bind. simpl. rewrite Hs. simpl.
  rewrite run_bind, find_loop_records by done.
  destruct (List.find (matchesb name) l) as [r|] eqn:Hf; [|done]. simpl.
  apply find_some in Hf as [Hin _].
  rewrite record_truthy; [done|].
  rewrite Forall_forall in Hl. apply Hl. by apply list_elem_of_In.
Qed.

End LookupFacts.

(** C1. For every store and every string [name], [getSisterData(name)]
    returns the first Record, in store order, whose name lower-cased and
    trimmed equals [name] lower-cased and trimmed, and [null] when no
    Record matches; [checkSisterExists(name)] returns [true] exactly when
    such a Record exists.  The store meant is the one the scan runs on: the
    store of the session when it is not empty, the freshly loaded one when
    it is. *)
Theorem C1_lookup_returns_first_match `{Builtins} (network : nat → fetch_result)
    (s : session) (name : string) (l : list value) :
  sistersData (populated network s) = VArr l →
  Forall is_record l →
  (∃ r, getSisterData network (VStr name) s = (Normal r, populated network s)
        ∧ (first_match name l r ∨ (r = VNull ∧ no_match name l)))
  ∧ (∃ b, checkSisterExists network (VStr name) s
            = (Normal (VBool b), populated network s)
          ∧ (b = true ↔ ∃ r, first_match name l r))
  ∧ populated network s =
      (if store_is_empty (sistersData s) then (loadSistersData network s).2 else s).
Proof.
  intros Hstore Hrec. split_and!.
  - rewrite getSisterData_run, (ensure_loaded_on_array _ _ l) by done.
    rewrite (find_scan_records _ _ l) by done. simpl.
    destruct (List.find (matchesb name) l) as [r|] eqn:Hf; simpl.
    + exists r. split; [done|]. left. by apply find_is_first_match.
    + exists VNull. split; [done|]. right. split; [done|]. by apply find_none_no_match.
  - rewrite checkSisterExists_run, (ensure_loaded_on_array _ _ l) by done.
    rewrite (exists_scan_records _ _ l) by done. simpl.
    eexists. split; [done|]. apply existsb_first_match.
  - apply populated_run.
Qed.

Section AnswerFacts.
Context `{Builtins}.
Variable network : nat → fetch_result.

(** On one and the same session the two answers agree. *)
Lemma answers_agree name (t : session) :
  ∃ b, exists_answer name t = VBool b
       ∧ (b = true ↔ find_answer name t ≠ VNull)
       ∧ (b = true ↔ is_record (find_answer name t)).
Proof.
  unfold exists_answer, find_answer.
  destruct (scans_agree name t) as [(e & e' & -> & ->)|[[-> ->]|(x & -> & -> & Hx)]];
    simpl.
  - exists false. split_and!; [done|done|]. split; [done|]. by intros [? ?].
  - exists false. split_and!; [done|done|]. split; [done|]. by intros [? ?].
  - exists true. split_and!; [done| |done]. split; [|done].
    intros _. by apply record_not_null.
Qed.

(** The answers depend on the session through the store only. *)
Lemma answers_store name (t t' : session) :
  sistersData t = sistersData t' →
  exists_answer name t = exists_answer name t'
  ∧ find_answer name t = find_answer name t'.
Proof.
  intros Hst. unfold exists_answer, find_answer.
  destruct (exists_scan_run name) as [F HF], (find_scan_run name) as [G HG].
  by rewrite !HF, !HG, Hst.
Qed.

(** A store without properties makes both scans throw. *)
Lemma answers_no_properties name (t : session) :
  sistersData t = VUndefined ∨ sistersData t = VNull →
  exists_answer name t = VBool false ∧ find_answer name t = VNull.
Proof.
  intros Hst. unfold exists_answer, find_answer, exists_scan, find_scan.
  rewrite !run_bind.
  destruct (pure_normalized name) as [[k|e] Hk]; rewrite Hk; [|done].
  rewrite !run_bind. simpl. by destruct Hst as [-> | ->].
Qed.

Lemma console_error_store msg e (t : session) :
  sistersData (console_error msg e t).2 = sistersData t
  ∧ fetches (console_error msg e t).2 = fetches t.
Proof. done. Qed.

(** [checkSisterExists] always returns, with the answer of its scan on the
    populated session; it changes the store and the request count only by
    populating. *)
Lemma checkSisterExists_result name s :
  ∃ s1, checkSisterExists network name s
          = (Normal (exists_answer name (populated network s)), s1)
        ∧ sistersData s1 = sistersData (populated network s)
        ∧ fetches s1 = fetches (populated network s).
Proof.
  rewrite checkSisterExists_run.
  destruct (ensure_loaded_run network s) as [(e & He & Hs)|He]; rewrite He.
  - assert (populated network s = s) as Hp.
    { rewrite populated_run. by destruct Hs as [-> | ->]. }
    rewrite Hp. destruct (answers_no_properties name s Hs) as [-> _].
    eexists. split; [done|]. apply console_error_store.
  - unfold exists_answer.
    destruct (exists_scan name (populated network s)).1; by eexists.
Qed.

Lemma getSisterData_result name s :
  ∃ s1, getSisterData network name s
          = (Normal (find_answer name (populated network s)), s1)
        ∧ sistersData s1 = sistersData (populated network s)
        ∧ fetches s1 = fetches (populated network s).
Proof.
  rewrite getSisterData_run.
  destruct (ensure_loaded_run network s) as [(e & He & Hs)|He]; rewrite He.
  - assert (populated network s = s) as Hp.
    { rewrite populated_run. by destruct Hs as [-> | ->]. }
    rewrite Hp. destruct (answers_no_properties name s Hs) as [_ ->].
    eexists. split; [done|]. apply console_error_store.
  - unfold find_answer.
    destruct (find_scan name (populated network s)).1; by eexists.
Qed.

(** A lookup that issues no request runs on the store it was given. *)
Lemma no_request_same_store s :
  fetches (populated network s) = fetches s →
  sistersData (populated network s) = sistersData s.
Proof.
  rewrite populated_fetches, populated_run.
  destruct (store_is_empty (sistersData s)); [lia|done].
Qed.

End AnswerFacts.

(** C9. The two lookups agree.  Started on the same session, with any
    store and any argument, [checkSisterExists(name)] returns [true]
    exactly when [getSisterData(name)] returns a value other than [null],
    which is then a Record; and the same holds when [getSisterData] is
    called after [checkSisterExists] and issues no request of its own. *)
Theorem C9_lookups_agree `{Builtins} (network : nat → fetch_result)
    (s : session) (name : value) :
  ∃ b r s1 s2,
    checkSisterExists network name s = (Normal (VBool b), s1)
    ∧ getSisterData network name s = (Normal r, s2)
    ∧ (b = true ↔ r ≠ VNull)
    ∧ (b = true ↔ is_record r)
    ∧ sistersData s1 = sistersData s2
    ∧ ∃ r' s3,
        getSisterData network name s1 = (Normal r', s3)
        ∧ (fetches s3 = fetches s1 → (b = true ↔ r' ≠ VNull)).
Proof.
  destruct (checkSisterExists_result network name s) as (s1 & Hc & Hst1 & Hf1).
  destruct (getSisterData_result network name s) as (s2 & Hg & Hst2 & Hf2).
  destruct (getSisterData_result network name s1) as (s3 & Hg' & Hst3 & Hf3).
  destruct (answers_agree name (populated network s)) as (b & Hb & Hnull & Hrec).
  exists b, (find_answer name (populated network s)), s1, s2.
  rewrite Hc, Hb, Hg. split_and!; try done; [congruence|].
  exists (find_answer name (populated network s1)), s3. split; [done|].
  intros Hsame. rewrite Hf3 in Hsame.
  apply no_request_same_store in Hsame.
  destruct (answers_store name (populated network s1) (populated network s)) as [_ ->];
    [congruence|done].
Qed.

Section EmptyStore.
Context `{Builtins}.

Lemma find_answer_empty name (t : session) :
  sistersData t = VArr [] → find_answer name t = VNull.
Proof.
  intros Hst. unfold find_answer, find_scan. rewrite !run_bind.
  destruct (pure_normalized name) as [[k|e] Hk]; rewrite Hk; [|done].
  rewrite !run_bind. simpl. by rewrite Hst.
Qed.

Lemma existsb_matches_member name n r l :
  r ∈ l → record_name r = Some n → key n = key name →
  existsb (matchesb name) l = true.
Proof.
  intros Hin Hn Hk. apply existsb_exists. exists r.
  split; [by apply list_elem_of_In|]. apply matchesb_spec. by exists n.
Qed.

End EmptyStore.

(** C5. [loadSistersData] never throws.  When the request fails, the status
    is not a success or the body does not parse, it sets the store to the
    empty array and returns the empty array.  A [getSisterData(name)] after
    that never throws either, and returns [null] while the data source
    keeps failing. *)
Theorem C5_load_fails_soft `{Builtins} (network : nat → fetch_result) (s : session) :
  (∃ v s', loadSistersData network s = (Normal v, s'))
  ∧ (load_fails (network (fetches s)) →
     ∃ s', loadSistersData network s = (Normal (VArr []), s')
           ∧ sistersData s' = VArr []
           ∧ ∀ name,
               (∃ r s'', getSisterData network name s' = (Normal r, s''))
               ∧ (load_fails (network (fetches s')) →
                  ∃ s'', getSisterData network name s' = (Normal VNull, s''))).
Proof.
  split.
  - destruct (load_run network s) as [log Hload]. eauto.
  - intros Hfail. destruct (load_run_fail network s Hfail) as [e Hload].
    eexists. split; [exact Hload|]. split; [done|]. intros name.
    set (s' := {| sistersData := VArr [] |}).
    destruct (getSisterData_result network name s') as (s'' & Hg & _). split; [eauto|].
    intros Hfail'. exists s''. rewrite Hg. f_equal. f_equal.
    apply find_answer_empty. rewrite populated_run. simpl.
    by destruct (load_run_fail network s' Hfail') as [e' ->].
Qed.

(** C6. Round trip.  When [loadSistersData] fetches and parses a document
    of [N] Records, the store afterwards is that document, of length [N],
    and [checkSisterExists] returns [true] for the exact name of every
    Record in it. *)
Theorem C6_round_trip `{Builtins} (network : nat → fetch_result) (s : session)
    (l : list value) (code : nat) :
  network (fetches s)
    = Responds {| ok := true; status := code; content := Document (VArr l) |} →
  Forall is_record l →
  ∃ s', loadSistersData network s = (Normal (VArr l), s')
        ∧ sistersData s' = VArr l
        ∧ get_prop (sistersData s') "length" s'
            = (Normal (VNum (Z.of_nat (length l))), s')
        ∧ ∀ r n, r ∈ l → record_name r = Some n →
            checkSisterExists network (VStr n) s' = (Normal (VBool true), s').
Proof.
  intros Hnet Hrec.
  assert (loaded_document (network (fetches s)) = Some (VArr l)) as Hdoc
    by (by rewrite Hnet).
  eexists. split; [by apply load_run_ok|]. split; [done|]. split; [done|].
  intros r n Hin Hn.
  set (s' := {| sistersData := VArr l |}).
  assert (populated network s' = s') as Hp.
  { apply populated_store. simpl. by destruct Hin. }
  rewrite checkSisterExists_run, (ensure_loaded_on_array _ _ l) by by rewrite Hp.
  rewrite Hp, (exists_scan_records _ _ l) by done. simpl.
  by rewrite (existsb_matches_member n n r l).
Qed.

(** C8, as amended.  After any call, the store is either the whole value
    parsed from the response, which [loadSistersData] also returns, or,
    when the load failed, the empty array: never a part of the document.
    The document is stored as it is, whether or not it is a sequence of
    Records. *)
Theorem C8_load_replaces_store_whole (network : nat → fetch_result) (s : session) :
  ∃ v s', loadSistersData network s = (Normal v, s')
          ∧ sistersData s' = v
          ∧ (loaded_document (network (fetches s)) = Some v
             ∨ (load_fails (network (fetches s)) ∧ v = VArr [])).
Proof.
  destruct (loaded_document (network (fetches s))) as [v|] eqn:Hdoc.
  - exists v. eexists. split; [by apply load_run_ok|]. split; [done|]. by left.
  - apply load_fails_no_document in Hdoc.
    destruct (load_run_fail network s Hdoc) as [e Hload].
    exists (VArr []). eexists. split; [exact Hload|]. split; [done|]. by right.
Qed.

(** C8, as stated, fails: a data source whose document is a JSON object
    leaves that object in the store, which is not a sequence of Records. *)
Lemma C8_store_not_a_record_sequence :
  sistersData (loadSistersData serving_object fresh_session).2
    = VObj [("sisters", VArr sample_document)]
  ∧ ¬ is_record_sequence (sistersData (loadSistersData serving_object fresh_session).2).
Proof. split; [reflexivity|]. intros (l & Hl & _). vm_compute in Hl. discriminate Hl. Qed.

(** ** Sequences of lookups *)

Section CallFacts.
Context `{Builtins}.
Variable network : nat → fetch_result.

(** A lookup changes the store and the request count only by populating. *)
Lemma run_lookup_result c s :
  sistersData (run_lookup network c s).2 = sistersData (populated network s)
  ∧ fetches (run_lookup network c s).2 = fetches (populated network s).
Proof.
  destruct c as [name|name]; simpl.
  - by destruct (checkSisterExists_result network name s) as (s1 & -> & ? & ?).
  - by destruct (getSisterData_result network name s) as (s1 & -> & ? & ?).
Qed.

(** While the store is not empty no lookup loads, and the store stays. *)
Lemma run_lookups_loaded cs s :
  store_is_empty (sistersData s) = false →
  fetches (run_lookups network cs s) = fetches s
  ∧ sistersData (run_lookups network cs s) = sistersData s.
Proof.
  revert s. induction cs as [|c cs IH]; intros s Hs; [done|]. simpl.
  destruct (run_lookup_result c s) as [Hst Hf].
  rewrite populated_store in Hst, Hf by done.
  destruct (IH (run_lookup network c s).2) as [-> ->]; [by rewrite Hst|done].
Qed.

End CallFacts.

(** C7, as amended.  A lookup triggers a load exactly when the length of
    the store is [0] at the time of the call, and leaves the store as it is
    otherwise.  So no lookup loads while the store is not empty, and a
    sequence of lookups that begins with an empty store triggers the load
    exactly once when that load delivers a store that is not empty. *)
Theorem C7_load_only_while_store_empty `{Builtins} (network : nat → fetch_result) :
  (∀ c s,
     fetches (run_lookup network c s).2
       = (if store_is_empty (sistersData s) then S (fetches s) else fetches s)
     ∧ (store_is_empty (sistersData s) = false →
        sistersData (run_lookup network c s).2 = sistersData s))
  ∧ (∀ cs s,
       store_is_empty (sistersData s) = false →
       fetches (run_lookups network cs s) = fetches s
       ∧ sistersData (run_lookups network cs s) = sistersData s)
  ∧ (∀ c cs s d,
       sistersData s = VArr [] →
       loaded_document (network (fetches s)) = Some d →
       store_is_empty d = false →
       fetches (run_lookups network (c :: cs) s) = S (fetches s)
       ∧ sistersData (run_lookups network (c :: cs) s) = d).
Proof.
  split_and!.
  - intros c s. destruct (run_lookup_result network c s) as [Hst Hf]. split.
    + rewrite Hf. apply populated_fetches.
    + intros Hs. by rewrite Hst, populated_store.
  - apply run_lookups_loaded.
  - intros c cs s d Hs Hdoc Hd. simpl.
    destruct (run_lookup_result network c s) as [Hst Hf].
    rewrite populated_run, Hs in Hst, Hf. simpl in Hst, Hf.
    rewrite (load_run_ok network s d Hdoc) in Hst, Hf. simpl in Hst, Hf.
    destruct (run_lookups_loaded network cs (run_lookup network c s).2) as [-> ->];
      [by rewrite Hst|done].
Qed.

(** C7, as stated, fails: with the data source out of reach, two lookups
    in a row on a fresh session issue two requests. *)
Lemma C7_two_lookups_two_loads :
  fetches (run_lookups (H := ascii_engine) offline
             [Find (VStr "Priya"); Exists (VStr "Priya")] fresh_session) = 2
  ∧ ¬ loads_exactly_once (H := ascii_engine) offline
        [Find (VStr "Priya"); Exists (VStr "Priya")] fresh_session.
Proof. split; [reflexivity|]. unfold loads_exactly_once. vm_compute. discriminate. Qed.

(** ** The heap *)

Lemma read_below (h ext : heap) l c :
  h !! l = Some c → read l (h ++ ext) = (Normal c, h ++ ext).
Proof. intros Hl. unfold read. by rewrite (lookup_app_l_Some _ _ _ c). Qed.

Lemma read_top (h : heap) c : read (length h) (h ++ [c]) = (Normal c, h ++ [c]).
Proof. unfold read. by rewrite list_lookup_middle. Qed.

(** A push to the array on top of the heap extends that array only. *)
Lemma push_top (h : heap) errs v :
  push (HRef (length h)) v (h ++ [CArray errs])
  = (Normal (), h ++ [CArray (errs ++ [v])]).
Proof.
  unfold push. rewrite run_bind, read_top. unfold write, modify.
  rewrite insert_app_r_alt by lia. by rewrite Nat.sub_diag.
Qed.

Lemma when_push_top (h : heap) errs (b : bool) v :
  when b (push (HRef (length h)) v) (h ++ [CArray errs])
  = (Normal (), h ++ [CArray (errs ++ (if b then [v] else []))]).
Proof. destruct b; simpl; [apply push_top|by rewrite app_nil_r]. Qed.

Lemma hget_prop_below (h ext : heap) c fields k :
  h !! c = Some (CObject fields) →
  hget_prop (HRef c) k (h ++ ext) = (Normal (field fields k), h ++ ext).
Proof. intros Hc. unfold hget_prop. by rewrite run_bind, (read_below _ _ _ _ Hc). Qed.

Lemma isArray_below (h ext : heap) a c :
  h !! a = Some c →
  isArray (HRef a) (h ++ ext)
  = (Normal (match c with CArray _ => true | CObject _ => false end), h ++ ext).
Proof. intros Ha. unfold isArray. by rewrite run_bind, (read_below _ _ _ _ Ha). Qed.

(** The last two lines of the validator: read the length of the array of
    errors, allocate the result. *)
Lemma finish_run (h : heap) errs :
  (len ← hget_prop (HRef (length h)) "length";
   alloc (CObject [("isValid", HBool (hstrict_eq len (HNum 0)));
                   ("errors", HRef (length h))])) (h ++ [CArray errs])
  = (Normal (HRef (S (length h))), heap_after h errs).
Proof.
  rewrite run_bind. unfold hget_prop. rewrite run_bind, read_top. simpl.
  unfold alloc, heap_after. rewrite length_app, Nat.add_1_r, <-app_assoc. simpl.
  by rewrite length_is_zero.
Qed.

(** ** The validator on a well-typed candidate *)

Section TypedCandidate.
Context `{Builtins}.

Lemma missing_or_blank_typed (h ext : heap) c fields k :
  h !! c = Some (CObject fields) →
  typed_field (field fields k) = true →
  missing_or_blank (HRef c) k (h ++ ext) = (Normal (blank (field fields k)), h ++ ext).
Proof.
  intros Hc Hty. unfold missing_or_blank.
  rewrite run_bind, (hget_prop_below _ _ _ _ _ Hc). cbv beta iota.
  destruct (htruthy (field fields k)) eqn:Htruthy; cbn [negb].
  - rewrite run_bind, (hget_prop_below _ _ _ _ _ Hc). cbv beta iota.
    destruct (field fields k) as [| |b|n|s|l]; simpl in *; try done.
    + by destruct b.
    + by destruct (n =? 0)%Z.
    + by destruct (String.eqb s "").
  - destruct (field fields k) as [| |b|n|s|l]; simpl in *; try done.
    + by subst.
    + by destruct (n =? 0)%Z.
    + by destruct (String.eqb s "").
Qed.

Lemma check_image_typed (h : heap) errs url index :
  typed_field url = true →
  check_image (HRef (length h)) url index (h ++ [CArray errs])
  = (Normal (), h ++ [CArray (errs ++ (HStr <$> image_error index url))]).
Proof.
  intros Hty. unfold check_image. rewrite run_bind.
  destruct url as [| |b|n|s|l]; simpl in *; rewrite ?app_nil_r; try done.
  - by destruct b.
  - by destruct (n =? 0)%Z.
  - unfold nonblank.
    destruct (String.eqb s "") eqn:Hs; simpl; rewrite ?app_nil_r; [done|].
    destruct (String.eqb (trim s) "") eqn:Ht; simpl; rewrite ?app_nil_r; [done|].
    rewrite run_try_catch.
    destruct (URL_parses s) eqn:Hurl; simpl; rewrite ?app_nil_r; [done|].
    apply push_top.
Qed.

Lemma forEach_loop_typed (h : heap) a entries :
  h !! a = Some (CArray entries) →
  Forall (λ v, typed_field v = true) entries →
  ∀ n k errs,
    k + n = length entries →
    forEach_loop a (check_image (HRef (length h))) k n (h ++ [CArray errs])
    = (Normal (),
       h ++ [CArray (errs ++ (HStr <$> image_errors_from k (drop k entries)))]).
Proof.
  intros Ha Hty. induction n as [|n IH]; intros k errs Hlen; cbn [forEach_loop].
  - rewrite drop_ge by lia. by rewrite app_nil_r.
  - destruct (lookup_lt_is_Some_2 entries k) as [url Hurl]; [lia|].
    rewrite !run_bind, (read_below _ _ _ _ Ha). cbv beta iota. rewrite Hurl.
    rewrite run_bind, check_image_typed
      by exact (Forall_lookup_1 (λ v, typed_field v = true) entries k url Hty Hurl).
    rewrite IH by lia. rewrite (drop_S _ _ _ Hurl). cbn [image_errors_from].
    by rewrite fmap_app, app_assoc.
Qed.

(** The image check of a well-typed candidate, followed by the rest [k] of
    the function. *)
Lemma images_check_typed {B} (h : heap) c fields errs (k : () → JS heap B) :
  h !! c = Some (CObject fields) →
  well_typed h (HRef c) = true →
  (images ← hget_prop (HRef c) "images";
   c4 ← (if htruthy images
         then images' ← hget_prop (HRef c) "images"; isArray images'
         else mret false);
   when c4 (images'' ← hget_prop (HRef c) "images";
            forEach images'' (check_image (HRef (length h)))) ≫= k)
    (h ++ [CArray errs])
  = k () (h ++ [CArray (errs ++ (HStr <$> match images_of h fields with
                                         | Some entries => image_errors_from 0 entries
                                         | None => []
                                         end))]).
Proof.
  intros Hc Hty. unfold well_typed in Hty. rewrite Hc in Hty.
  apply andb_prop in Hty as [_ Himg]. unfold images_of.
  rewrite run_bind, (hget_prop_below _ _ _ _ _ Hc). cbv beta iota.
  rewrite run_bind.
  destruct (htruthy (field fields "images")) eqn:Htruthy.
  - rewrite run_bind, (hget_prop_below _ _ _ _ _ Hc). cbv beta iota.
    destruct (field fields "images") as [| |b|n|s|a] eqn:Hf;
      try discriminate Htruthy; try (by rewrite app_nil_r).
    destruct (h !! a) as [[entries|other]|] eqn:Ha; [| |done].
    + rewrite (isArray_below _ _ _ _ Ha). cbv beta iota. cbn [when].
      rewrite !run_bind, (hget_prop_below _ _ _ _ _ Hc), Hf. cbv beta iota.
      unfold forEach. rewrite run_bind, (read_below _ _ _ _ Ha). cbv beta iota.
      pose proof (proj1 (forallb_forall _ _) Himg) as Hentries.
      rewrite (forEach_loop_typed h a entries Ha); [done| |lia].
      apply Forall_forall. intros v Hv. apply Hentries. by apply list_elem_of_In.
    + rewrite (isArray_below _ _ _ _ Ha). by rewrite app_nil_r.
  - rewrite run_ret. cbv beta iota. cbn [when]. rewrite run_bind, run_ret.
    destruct (field fields "images"); try discriminate Htruthy; by rewrite app_nil_r.
Qed.

(** On a well-typed candidate the validator returns, and the heap it
    leaves holds the expected errors. *)
Lemma validate_typed (h : heap) c fields :
  h !! c = Some (CObject fields) →
  well_typed h (HRef c) = true →
  validateSisterData (HRef c) h
  = (Normal (HRef (S (length h))), heap_after h (HStr <$> expected_errors h fields)).
Proof.
  intros Hc Hty. pose proof Hty as Hfields.
  unfold well_typed in Hfields. rewrite Hc in Hfields.
  apply andb_prop in Hfields as [Hfields _].
  apply andb_prop in Hfields as [Hfields Hmessage].
  apply andb_prop in Hfields as [Hname Hgreeting].
  unfold validateSisterData. rewrite run_bind. unfold alloc at 1.
  rewrite run_bind, (missing_or_blank_typed _ _ _ _ _ Hc Hname).
  rewrite run_bind, when_push_top.
  rewrite run_bind, (missing_or_blank_typed _ _ _ _ _ Hc Hgreeting).
  rewrite run_bind, when_push_top.
  rewrite run_bind, (missing_or_blank_typed _ _ _ _ _ Hc Hmessage).
  rewrite run_bind, when_push_top.
  rewrite (images_check_typed h c fields _ _ Hc Hty), finish_run.
  f_equal. f_equal. unfold expected_errors, required_errors.
  rewrite !fmap_app. simpl.
  by destruct (blank (field fields "name")), (blank (field fields "greeting")),
    (blank (field fields "message")); rewrite <-?app_assoc.
Qed.

(** *** The validator on a candidate that is not well typed *)

Lemma untyped_is_truthy v : typed_field v = false → htruthy v = true.
Proof.
  destruct v as [| |b|n|s|l]; simpl; try done.
  - by destruct b.
  - by destruct (n =? 0)%Z.
Qed.

Lemma missing_or_blank_untyped (h ext : heap) c fields k :
  h !! c = Some (CObject fields) →
  typed_field (field fields k) = false →
  missing_or_blank (HRef c) k (h ++ ext)
  = (Throw (TypeError "trim is not a function"), h ++ ext).
Proof.
  intros Hc Hty. unfold missing_or_blank.
  rewrite run_bind, (hget_prop_below _ _ _ _ _ Hc). cbv beta iota.
  rewrite (untyped_is_truthy _ Hty). cbn [negb].
  rewrite run_bind, (hget_prop_below _ _ _ _ _ Hc). cbv beta iota.
  by destruct (field fields k).
Qed.

Lemma check_image_untyped (h : heap) errs url index :
  typed_field url = false →
  check_image (HRef (length h)) url index (h ++ [CArray errs])
  = (Throw (TypeError "trim is not a function"), h ++ [CArray errs]).
Proof.
  intros Hty. unfold check_image.
  rewrite run_bind, (untyped_is_truthy _ Hty), run_bind.
  by destruct url.
Qed.

(** The image loop throws at the first entry that is neither a string nor
    falsy. *)
Lemma forEach_loop_untyped (h : heap) a entries :
  h !! a = Some (CArray entries) →
  ∀ n k errs,
    k + n = length entries →
    forallb typed_field (drop k entries) = false →
    ∃ e errs',
      forEach_loop a (check_image (HRef (length h))) k n (h ++ [CArray errs])
      = (Throw e, h ++ [CArray errs']).
Proof.
  intros Ha. induction n as [|n IH]; intros k errs Hlen Hbad; cbn [forEach_loop].
  - rewrite drop_ge in Hbad by lia. done.
  - destruct (lookup_lt_is_Some_2 entries k) as [url Hurl]; [lia|].
    rewrite (drop_S _ _ _ Hurl) in Hbad. cbn [forallb] in Hbad.
    rewrite !run_bind, (read_below _ _ _ _ Ha). cbv beta iota. rewrite Hurl, run_bind.
    destruct (typed_field url) eqn:Hty.
    + rewrite check_image_typed by done. apply IH; [lia|done].
    + rewrite check_image_untyped by done. by eexists _, _.
Qed.

(** The validator throws on every candidate object that is not well
    typed; its [images], when a reference, refers to an object of the
    heap, as every reference of a JavaScript program does. *)
Lemma validate_untyped (h : heap) c fields :
  h !! c = Some (CObject fields) →
  (∀ a, field fields "images" = HRef a → is_Some (h !! a)) →
  well_typed h (HRef c) = false →
  ∃ e h', validateSisterData (HRef c) h = (Throw e, h').
Proof.
  intros Hc Hclosed Hty. unfold well_typed in Hty. rewrite Hc in Hty.
  unfold validateSisterData. rewrite run_bind. unfold alloc at 1. rewrite run_bind.
  destruct (typed_field (field fields "name")) eqn:Hname;
    [|rewrite (missing_or_blank_untyped _ _ _ fields) by done; by eexists _, _].
  rewrite (missing_or_blank_typed _ _ _ _ _ Hc Hname), run_bind, when_push_top, run_bind.
  destruct (typed_field (field fields "greeting")) eqn:Hgreeting;
    [|rewrite (missing_or_blank_untyped _ _ _ fields) by done; by eexists _, _].
  rewrite (missing_or_blank_typed _ _ _ _ _ Hc Hgreeting), run_bind, when_push_top, run_bind.
  destruct (typed_field (field fields "message")) eqn:Hmessage;
    [|rewrite (missing_or_blank_untyped _ _ _ fields) by done; by eexists _, _].
  rewrite (missing_or_blank_typed _ _ _ _ _ Hc Hmessage), run_bind, when_push_top.
  cbn [andb] in Hty.
  rewrite run_bind, (hget_prop_below _ _ _ _ _ Hc). cbv beta iota.
  destruct (field fields "images") as [| |b|n|s|a] eqn:Hf; try discriminate Hty.
  cbn [htruthy]. rewrite !run_bind, (hget_prop_below _ _ _ _ _ Hc), Hf. cbv beta iota.
  destruct (h !! a) as [[entries|other]|] eqn:Ha; try discriminate Hty.
  - rewrite (isArray_below _ _ _ _ Ha). cbv beta iota. cbn [when].
    rewrite !run_bind, (hget_prop_below _ _ _ _ _ Hc), Hf. cbv beta iota.
    unfold forEach. rewrite run_bind, (read_below _ _ _ _ Ha). cbv beta iota.
    edestruct (forEach_loop_untyped h a entries Ha (length entries) 0) as (e & errs' & ->);
      [lia|done|by eexists _, _].
  - destruct (Hclosed a eq_refl) as [x Hx]. congruence.
Qed.

(** So the validator returns exactly on the well-typed candidates. *)
Lemma validate_returns_iff_typed (h : heap) c fields :
  h !! c = Some (CObject fields) →
  (∀ a, field fields "images" = HRef a → is_Some (h !! a)) →
  returns_result h (HRef c) ↔ well_typed h (HRef c) = true.
Proof.
  intros Hc Hclosed. split.
  - intros (r & h' & Hrun). destruct (well_typed h (HRef c)) eqn:Hty; [done|].
    destruct (validate_untyped h c fields Hc Hclosed Hty) as (e & h'' & Hthrow).
    congruence.
  - intros Hty. eexists _, _. by apply validate_typed.
Qed.

End TypedCandidate.

(** ** The validator writes to its own array only *)

Section Frame.
Context `{Builtins}.
Variable base : heap.

Lemma only_errors_ret {A} (a : A) : only_errors base (mret a).
Proof. intros errs. by exists (Normal a), errs. Qed.

Lemma only_errors_throw {A} (e : exn) : only_errors base (throw e : JS heap A).
Proof. intros errs. by exists (Throw e), errs. Qed.

Lemma only_errors_bind {A B} (m : JS heap A) (f : A → JS heap B) :
  only_errors base m → (∀ a, only_errors base (f a)) → only_errors base (m ≫= f).
Proof.
  intros Hm Hf errs. rewrite run_bind.
  destruct (Hm errs) as ([a|e] & errs1 & ->); [apply Hf|by eexists _, _].
Qed.

Lemma only_errors_try_catch {A} (body : JS heap A) (handler : exn → JS heap A) :
  only_errors base body → (∀ e, only_errors base (handler e)) →
  only_errors base (try_catch body handler).
Proof.
  intros Hb Hh errs. rewrite run_try_catch.
  destruct (Hb errs) as ([a|e] & errs1 & ->); [by eexists _, _|apply Hh].
Qed.

Lemma only_errors_when (b : bool) (m : JS heap ()) :
  only_errors base m → only_errors base (when b m).
Proof. destruct b; [done|intros _; apply only_errors_ret]. Qed.

Lemma only_errors_read l : only_errors base (read l).
Proof. intros errs. unfold read. destruct (_ !! l); by eexists _, _. Qed.

Lemma only_errors_hget_prop v k : only_errors base (hget_prop v k).
Proof.
  destruct v; simpl; try apply only_errors_ret; try apply only_errors_throw.
  apply only_errors_bind; [apply only_errors_read|].
  intros [?|?]; apply only_errors_ret.
Qed.

Lemma only_errors_isArray v : only_errors base (isArray v).
Proof.
  destruct v; simpl; try apply only_errors_ret.
  apply only_errors_bind; [apply only_errors_read|intros; apply only_errors_ret].
Qed.

Lemma only_errors_hinvoke_trim v : only_errors base (hinvoke_trim v).
Proof. destruct v; simpl; try apply only_errors_ret; apply only_errors_throw. Qed.

Lemma only_errors_new_URL v : only_errors base (new_URL v).
Proof.
  destruct v; simpl; try apply only_errors_throw.
  destruct (URL_parses _); [apply only_errors_ret|apply only_errors_throw].
Qed.

Lemma only_errors_push v : only_errors base (push (HRef (length base)) v).
Proof. intros errs. rewrite push_top. by eexists _, _. Qed.

Lemma only_errors_missing_or_blank v k : only_errors base (missing_or_blank v k).
Proof.
  apply only_errors_bind; [apply only_errors_hget_prop|intros x].
  destruct (negb (htruthy x)); [apply only_errors_ret|].
  apply only_errors_bind; [apply only_errors_hget_prop|intros x'].
  apply only_errors_bind; [apply only_errors_hinvoke_trim|intros; apply only_errors_ret].
Qed.

Lemma only_errors_check_image url index :
  only_errors base (check_image (HRef (length base)) url index).
Proof.
  apply only_errors_bind.
  - destruct (htruthy url); [|apply only_errors_ret].
    apply only_errors_bind; [apply only_errors_hinvoke_trim|intros; apply only_errors_ret].
  - intros c. apply only_errors_when, only_errors_try_catch.
    + apply only_errors_new_URL.
    + intros e. apply only_errors_push.
Qed.

Lemma only_errors_forEach_loop l n :
  ∀ k, only_errors base (forEach_loop l (check_image (HRef (length base))) k n).
Proof.
  induction n as [|n IH]; intros k; simpl; [apply only_errors_ret|].
  apply only_errors_bind; [apply only_errors_read|].
  intros [elems|?]; (apply only_errors_bind; [|intros; apply IH]);
    [|apply only_errors_ret].
  destruct (elems !! k); [apply only_errors_check_image|apply only_errors_ret].
Qed.

Lemma only_errors_forEach arr :
  only_errors base (forEach arr (check_image (HRef (length base)))).
Proof.
  destruct arr; simpl; try apply only_errors_throw.
  apply only_errors_bind; [apply only_errors_read|].
  intros [elems|?]; [apply only_errors_forEach_loop|apply only_errors_throw].
Qed.

Lemma finishes_bind {A} (m : JS heap A) (f : A → JS heap hval) :
  only_errors base m → (∀ a, finishes base (f a)) → finishes base (m ≫= f).
Proof.
  intros Hm Hf errs. rewrite run_bind.
  destruct (Hm errs) as ([a|e] & errs1 & ->); [apply Hf|].
  exists errs1. right. by exists e.
Qed.

Lemma finishes_result :
  finishes base
    (len ← hget_prop (HRef (length base)) "length";
     alloc (CObject [("isValid", HBool (hstrict_eq len (HNum 0)));
                     ("errors", HRef (length base))])).
Proof. intros errs. exists errs. left. apply finish_run. Qed.

End Frame.

(** Whatever the argument, the validator leaves the heap it was given as
    it is, with its array of errors on top and, when it returns, the result
    object above that. *)
Lemma validate_shape `{Builtins} (sisterData : hval) (h : heap) :
  ∃ errs,
    validateSisterData sisterData h
      = (Normal (HRef (S (length h))), heap_after h errs)
    ∨ ∃ e, validateSisterData sisterData h = (Throw e, h ++ [CArray errs]).
Proof.
  unfold validateSisterData. rewrite run_bind. unfold alloc at 1.
  revert sisterData. intros sisterData.
  assert (finishes h
    (c1 ← missing_or_blank sisterData "name";
     when c1 (push (HRef (length h)) (HStr "Name is required"));;
     c2 ← missing_or_blank sisterData "greeting";
     when c2 (push (HRef (length h)) (HStr "Greeting is required"));;
     c3 ← missing_or_blank sisterData "message";
     when c3 (push (HRef (length h)) (HStr "Message is required"));;
     images ← hget_prop sisterData "images";
     c4 ← (if htruthy images
           then images' ← hget_prop sisterData "images"; isArray images'
           else mret false);
     when c4 (images'' ← hget_prop sisterData "images";
              forEach images'' (check_image (HRef (length h))));;
     len ← hget_prop (HRef (length h)) "length";
     alloc (CObject [("isValid", HBool (hstrict_eq len (HNum 0)));
                     ("errors", HRef (length h))]))) as Hbody.
  { repeat first
      [ apply finishes_result
      | apply finishes_bind; [|intros ?]
      | apply only_errors_missing_or_blank
      | apply only_errors_when, only_errors_push
      | apply only_errors_hget_prop
      | apply only_errors_when, only_errors_bind; [|intros ?]
      | apply only_errors_forEach
      | case_match; [apply only_errors_bind; [|intros ?]|apply only_errors_ret]
      | apply only_errors_isArray ]. }
  apply (Hbody []).
Qed.

(** ** Reading the result *)

Lemma strings_of_strings (errs : list string) : strings_of (HStr <$> errs) = errs.
Proof.
  induction errs as [|e errs IH]; [done|].
  change (strings_of (HStr <$> e :: errs)) with (e :: strings_of (HStr <$> errs)).
  by rewrite IH.
Qed.

Lemma result_at_after (h : heap) (errs : list string) :
  result_at (heap_after h (HStr <$> errs)) (HRef (S (length h)))
  = Some (Nat.eqb (length errs) 0, errs).
Proof.
  unfold result_at, heap_after.
  rewrite lookup_app_r by lia.
  replace (S (length h) - length h) with 1 by lia. simpl.
  rewrite list_lookup_middle by done.
  by rewrite strings_of_strings, length_fmap.
Qed.

Lemma no_errors_iff_valid (errs : list string) : Nat.eqb (length errs) 0 = true ↔ errs = [].
Proof. by destruct errs. Qed.

(** ** The messages of the image check *)

Lemma string_length_app (s1 s2 : string) :
  String.length (s1 +:+ s2) = String.length s1 + String.length s2.
Proof.
  induction s1 as [|c s1 IH]; [done|].
  change (S (String.length (s1 +:+ s2)) = S (String.length s1) + String.length s2).
  by rewrite IH.
Qed.

Lemma string_app_inj_r (s1 s2 suffix : string) :
  s1 +:+ suffix = s2 +:+ suffix → s1 = s2.
Proof.
  revert s2. induction s1 as [|c s1 IH]; intros [|c' s2] Heq; [done| | |].
  - apply (f_equal String.length) in Heq.
    rewrite !string_length_app in Heq. simpl in Heq. lia.
  - apply (f_equal String.length) in Heq.
    rewrite !string_length_app in Heq. simpl in Heq. lia.
  - change (String c (s1 +:+ suffix) = String c' (s2 +:+ suffix)) in Heq.
    injection Heq as -> Heq. f_equal. by apply IH.
Qed.

Section ImageMessages.
Context `{Builtins}.

Lemma image_message_inj i j : image_message i = image_message j → i = j.
Proof.
  unfold image_message. intros Heq.
  apply (inj (String.app _)) in Heq. apply string_app_inj_r in Heq.
  apply (inj pretty) in Heq. lia.
Qed.

Lemma blank_string s : blank (HStr s) = negb (nonblank s).
Proof. unfold nonblank. simpl. by destruct (String.eqb s ""), (String.eqb (trim s) ""). Qed.

(** The errors of the image check are the messages of the entries that
    are non-blank strings and no URLs, each under its own position. *)
Lemma elem_of_image_errors_from k entries msg :
  msg ∈ image_errors_from k entries ↔
  ∃ i s, entries !! i = Some (HStr s) ∧ nonblank s = true ∧ URL_parses s = false
         ∧ msg = image_message (k + i).
Proof.
  revert k. induction entries as [|url rest IH]; intros k; simpl.
  - split; [by intros ?%elem_of_nil|by intros (i & s & ? & _)].
  - rewrite elem_of_app, IH. split.
    + intros [Hhere|(i & s & Hi & Hb & Hu & ->)].
      * destruct url as [| | | |s|]; try by apply elem_of_nil in Hhere.
        simpl in Hhere.
        destruct (nonblank s) eqn:Hb, (URL_parses s) eqn:Hu; simpl in Hhere;
          try by apply elem_of_nil in Hhere.
        apply list_elem_of_singleton in Hhere as ->.
        exists 0, s. by rewrite Nat.add_0_r.
      * exists (S i), s. split_and!; try done. f_equal. lia.
    + intros ([|i] & s & Hi & Hb & Hu & ->); simpl in Hi.
      * left. simplify_eq. simpl. rewrite Hb, Hu. simpl.
        rewrite Nat.add_0_r. apply list_elem_of_singleton. done.
      * right. exists i, s. split_and!; try done. f_equal. lia.
Qed.

(** No message occurs twice: an entry produces at most one error. *)
Lemma image_errors_from_NoDup k entries : NoDup (image_errors_from k entries).
Proof.
  revert k. induction entries as [|url rest IH]; intros k; simpl; [constructor|].
  apply NoDup_app. split_and!; [|intros msg Hmsg|apply IH].
  - destruct url; simpl; try constructor.
    case_match; [apply NoDup_singleton|constructor].
  - intros (i & s & _ & _ & _ & ->)%elem_of_image_errors_from.
    destruct url as [| | | |s'|]; try by apply elem_of_nil in Hmsg.
    simpl in Hmsg. case_match; [|by apply elem_of_nil in Hmsg].
    apply list_elem_of_singleton, image_message_inj in Hmsg. lia.
Qed.

End ImageMessages.

(** ** The claims about the validator *)

(** C2. [validateSisterData({})], and any candidate without [name],
    [greeting], [message] and [images], returns exactly three errors, in
    this order: "Name is required", "Greeting is required", "Message is
    required".  All three checks run: the first failure does not end the
    function. *)
Theorem C2_empty_candidate_three_errors `{Builtins} (h : heap) (c : loc)
    (fields : list (string * hval)) :
  h !! c = Some (CObject fields) →
  lookup_field "name" fields = None →
  lookup_field "greeting" fields = None →
  lookup_field "message" fields = None →
  lookup_field "images" fields = None →
  ∃ h', validateSisterData (HRef c) h = (Normal (HRef (S (length h))), h')
        ∧ h' = heap_after h [HStr "Name is required"; HStr "Greeting is required";
                             HStr "Message is required"]
        ∧ result_at h' (HRef (S (length h)))
          = Some (false, ["Name is required"; "Greeting is required";
                          "Message is required"]).
Proof.
  intros Hc Hname Hgreeting Hmessage Himages.
  assert (well_typed h (HRef c) = true) as Hty.
  { unfold well_typed, field. by rewrite Hc, Hname, Hgreeting, Hmessage, Himages. }
  assert (expected_errors h fields
          = ["Name is required"; "Greeting is required"; "Message is required"]) as Hexp.
  { unfold expected_errors, required_errors, images_of, field.
    by rewrite Hname, Hgreeting, Hmessage, Himages. }
  eexists. split; [by apply validate_typed|]. rewrite Hexp. split; [done|].
  apply (result_at_after h ["Name is required"; "Greeting is required";
                            "Message is required"]).
Qed.

(** C3. For a candidate whose [images] is an array, the errors are those of
    the required fields followed by those of the entries: every entry that
    is a non-blank string and does not parse as a URL produces the one
    error "Image URL i is not valid", [i] its position counted from 1, in
    the order of the entries; no other entry produces an error.  On the
    example of the specification the only error is "Image URL 1 is not
    valid". *)
Theorem C3_image_url_errors `{Builtins} :
  (∀ (h : heap) c fields a entries,
     h !! c = Some (CObject fields) →
     field fields "images" = HRef a →
     h !! a = Some (CArray entries) →
     well_typed h (HRef c) = true →
     ∃ r h' isValid,
       validateSisterData (HRef c) h = (Normal r, h')
       ∧ result_at h' r
         = Some (isValid, required_errors fields ++ image_errors_from 0 entries)
       ∧ NoDup (image_errors_from 0 entries)
       ∧ ∀ msg, msg ∈ image_errors_from 0 entries ↔
           ∃ i s, entries !! i = Some (HStr s) ∧ nonblank s = true
                  ∧ URL_parses s = false ∧ msg = image_message i)
  ∧ (reads_the_example →
     ∃ r h', validateSisterData (HRef 0) candidate_with_images = (Normal r, h')
             ∧ result_at h' r = Some (false, ["Image URL 1 is not valid"])).
Proof.
  split.
  - intros h c fields a entries Hc Himages Ha Hty.
    eexists _, _, _. split; [by apply validate_typed|].
    split; [|split; [apply image_errors_from_NoDup|apply elem_of_image_errors_from]].
    rewrite result_at_after. unfold expected_errors, images_of.
    by rewrite Himages, Ha.
  - intros (HA & HG & HM & Hbad & Hgood & Hbad_url & Hgood_url).
    eexists _, _.
    split; [by apply (validate_typed candidate_with_images 0 _ eq_refl)|].
    rewrite result_at_after.
    assert (expected_errors candidate_with_images
              [("name", HStr "A"); ("greeting", HStr "G"); ("message", HStr "M");
               ("images", HRef 1)] = [image_message 0]) as ->; [|done].
    unfold expected_errors, required_errors, images_of.
    change (field _ "name") with (HStr "A").
    change (field _ "greeting") with (HStr "G").
    change (field _ "message") with (HStr "M").
    change (field _ "images") with (HRef 1).
    unfold loc.
    assert (candidate_with_images !! 1
            = Some (CArray [HStr "not a url"; HStr "https://example.com/x.jpg"]))
      as -> by reflexivity.
    cbn [image_errors_from image_error].
    by rewrite !blank_string, HA, HG, HM, Hbad, Hgood, Hbad_url, Hgood_url.
Qed.

(** C4, as amended.  On a candidate object whose [name], [greeting] and
    [message] are strings or falsy, and whose [images], when an array,
    holds strings or falsy values, [validateSisterData] returns, with
    [isValid] true exactly when [errors] is empty; when the three fields
    are non-blank and there is no [images] field, [isValid] is true and
    [errors] is empty.  On a candidate whose [name] is truthy and not a
    string it throws a TypeError. *)
Theorem C4_validate_returns_on_typed_candidate `{Builtins} (h : heap) (c : loc)
    (fields : list (string * hval)) :
  h !! c = Some (CObject fields) →
  (well_typed h (HRef c) = true →
   ∃ r h' isValid errors,
     validateSisterData (HRef c) h = (Normal r, h')
     ∧ result_at h' r = Some (isValid, errors)
     ∧ (isValid = true ↔ errors = [])
     ∧ (blank (field fields "name") = false →
        blank (field fields "greeting") = false →
        blank (field fields "message") = false →
        lookup_field "images" fields = None →
        isValid = true ∧ errors = []))
  ∧ (htruthy (field fields "name") = true →
     typed_field (field fields "name") = false →
     validateSisterData (HRef c) h
     = (Throw (TypeError "trim is not a function"), h ++ [CArray []])).
Proof.
  intros Hc. split.
  - intros Hty. eexists _, _, _, _. split; [by apply validate_typed|].
    split; [apply result_at_after|]. split; [apply no_errors_iff_valid|].
    intros Hname Hgreeting Hmessage Himages.
    unfold expected_errors, required_errors, images_of, field in *.
    by rewrite Hname, Hgreeting, Hmessage, Himages.
  - intros Htruthy Hty. unfold validateSisterData.
    rewrite run_bind. unfold alloc at 1.
    rewrite run_bind. unfold missing_or_blank.
    rewrite run_bind, (hget_prop_below _ _ _ _ _ Hc), Htruthy. cbv beta iota. cbn [negb].
    rewrite run_bind, (hget_prop_below _ _ _ _ _ Hc). cbv beta iota.
    by destruct (field fields "name").
Qed.

(** C4, as stated, fails: [validateSisterData({name: 5})] throws. *)
Lemma C4_numeric_name_throws :
  validateSisterData (H := ascii_engine) (HRef 0) candidate_with_numeric_name
    = (Throw (TypeError "trim is not a function"),
       candidate_with_numeric_name ++ [CArray []])
  ∧ ¬ returns_result (H := ascii_engine) candidate_with_numeric_name (HRef 0).
Proof.
  split; [reflexivity|]. intros (r & h' & Hrun). vm_compute in Hrun. discriminate Hrun.
Qed.

(** C10. [validateSisterData] does not change its argument: whatever it is
    called with, every object that existed before the call, the candidate
    and its [images] among them, is the same after it, also when the call
    throws.  The array of errors and the result object are new: they are
    the two cells the call adds on top of the heap. *)
Theorem C10_validate_leaves_its_argument `{Builtins} (sisterData : hval) (h : heap) :
  (∀ l, l < length h → (validateSisterData sisterData h).2 !! l = h !! l)
  ∧ ∃ errs,
      validateSisterData sisterData h
        = (Normal (HRef (S (length h))), heap_after h errs)
      ∨ ∃ e, validateSisterData sisterData h = (Throw e, h ++ [CArray errs]).
Proof.
  destruct (validate_shape sisterData h) as [errs Hshape]. split; [|by exists errs].
  intros l Hl. destruct Hshape as [-> | [e ->]]; simpl.
  - unfold heap_after. by apply lookup_app_l.
  - by apply lookup_app_l.
Qed.

(** ** The theorems at work on concrete inputs *)

Lemma sample_document_records : Forall is_record sample_document.
Proof. repeat (constructor; [by eexists|]). constructor. Defined.

(** C1 on a fresh session served [sample_document]: the lookup of "priya"
    loads the document and returns its first Record, named " Priya ". *)
Lemma C1_lookup_witness :
  sistersData (populated serving fresh_session) = VArr sample_document
  ∧ Forall is_record sample_document
  ∧ ∃ r, getSisterData (H := ascii_engine) serving (VStr "priya") fresh_session
           = (Normal r, populated serving fresh_session)
         ∧ (first_match (H := ascii_engine) "priya" sample_document r
            ∨ (r = VNull ∧ no_match (H := ascii_engine) "priya" sample_document)).
Proof.
  split; [reflexivity|]. split; [exact sample_document_records|].
  exact (proj1 (C1_lookup_returns_first_match (H := ascii_engine) serving fresh_session
                  "priya" sample_document eq_refl sample_document_records)).
Defined.

(** C2 on [{}]. *)
Lemma C2_empty_candidate_witness :
  empty_candidate !! 0 = Some (CObject [])
  ∧ ∃ h', validateSisterData (H := ascii_engine) (HRef 0) empty_candidate
            = (Normal (HRef 2), h')
          ∧ h' = heap_after empty_candidate
                   [HStr "Name is required"; HStr "Greeting is required";
                    HStr "Message is required"]
          ∧ result_at h' (HRef 2)
            = Some (false, ["Name is required"; "Greeting is required";
                            "Message is required"]).
Proof.
  split; [reflexivity|].
  exact (C2_empty_candidate_three_errors (H := ascii_engine) empty_candidate 0 []
           eq_refl eq_refl eq_refl eq_refl eq_refl).
Defined.

(** C3 on the example of the specification. *)
Lemma C3_example_witness :
  reads_the_example (H := ascii_engine)
  ∧ ∃ r h', validateSisterData (H := ascii_engine) (HRef 0) candidate_with_images
              = (Normal r, h')
            ∧ result_at h' r = Some (false, ["Image URL 1 is not valid"]).
Proof.
  assert (reads_the_example (H := ascii_engine)) as Hengine
    by (repeat split; reflexivity).
  split; [exact Hengine|].
  exact (proj2 (C3_image_url_errors (H := ascii_engine)) Hengine).
Defined.

(** C4 on [{name: "A", greeting: "G", message: "M"}]. *)
Lemma C4_candidate_without_images_witness :
  candidate_without_images !! 0
    = Some (CObject [("name", HStr "A"); ("greeting", HStr "G"); ("message", HStr "M")])
  ∧ well_typed candidate_without_images (HRef 0) = true
  ∧ ∃ r h' isValid errors,
      validateSisterData (H := ascii_engine) (HRef 0) candidate_without_images
        = (Normal r, h')
      ∧ result_at h' r = Some (isValid, errors)
      ∧ (isValid = true ↔ errors = [])
      ∧ (blank (H := ascii_engine) (HStr "A") = false →
         blank (H := ascii_engine) (HStr "G") = false →
         blank (H := ascii_engine) (HStr "M") = false →
         @None hval = None →
         isValid = true ∧ errors = []).
Proof.
  split; [reflexivity|]. split; [reflexivity|].
  exact (proj1 (C4_validate_returns_on_typed_candidate (H := ascii_engine)
                  candidate_without_images 0 _ eq_refl) eq_refl).
Defined.

(** C5 on a data source that answers HTTP 500. *)
Lemma C5_http_500_witness :
  load_fails (http_500 (fetches fresh_session))
  ∧ ∃ s', loadSistersData http_500 fresh_session = (Normal (VArr []), s')
          ∧ sistersData s' = VArr []
          ∧ ∀ name,
              (∃ r s'', getSisterData (H := ascii_engine) http_500 name s'
                          = (Normal r, s''))
              ∧ (load_fails (http_500 (fetches s')) →
                 ∃ s'', getSisterData (H := ascii_engine) http_500 name s'
                          = (Normal VNull, s'')).
Proof.
  assert (load_fails (http_500 (fetches fresh_session))) as Hfail
    by (by apply fails_status).
  split; [exact Hfail|].
  exact (proj2 (C5_load_fails_soft (H := ascii_engine) http_500 fresh_session) Hfail).
Defined.

(** C6 on a fresh session served [sample_document]. *)
Lemma C6_round_trip_witness :
  serving (fetches fresh_session)
    = Responds {| ok := true; status := 200; content := Document (VArr sample_document) |}
  ∧ Forall is_record sample_document
  ∧ ∃ s', loadSistersData serving fresh_session = (Normal (VArr sample_document), s')
          ∧ sistersData s' = VArr sample_document
          ∧ get_prop (sistersData s') "length" s' = (Normal (VNum 3), s')
          ∧ ∀ r n, r ∈ sample_document → record_name r = Some n →
              checkSisterExists (H := ascii_engine) serving (VStr n) s'
                = (Normal (VBool true), s').
Proof.
  split; [reflexivity|]. split; [exact sample_document_records|].
  exact (C6_round_trip (H := ascii_engine) serving fresh_session sample_document 200
           eq_refl sample_document_records).
Defined.

(** C7 on a fresh session served [sample_document]: three lookups, one
    request. *)
Lemma C7_one_load_witness :
  sistersData fresh_session = VArr []
  ∧ loaded_document (serving (fetches fresh_session)) = Some (VArr sample_document)
  ∧ store_is_empty (VArr sample_document) = false
  ∧ fetches (run_lookups (H := ascii_engine) serving
               [Find (VStr "anu"); Exists (VStr "meera"); Find (VStr "PRIYA")]
               fresh_session) = 1
  ∧ sistersData (run_lookups (H := ascii_engine) serving
                   [Find (VStr "anu"); Exists (VStr "meera"); Find (VStr "PRIYA")]
                   fresh_session) = VArr sample_document.
Proof.
  split; [reflexivity|]. split; [reflexivity|]. split; [reflexivity|].
  exact (proj2 (proj2 (C7_load_only_while_store_empty (H := ascii_engine) serving))
           (Find (VStr "anu")) [Exists (VStr "meera"); Find (VStr "PRIYA")]
           fresh_session (VArr sample_document) eq_refl eq_refl eq_refl).
Defined.

(** C10 on the example of the specification: the candidate and its array
    of images are as they were. *)
Lemma C10_frame_witness :
  0 < length candidate_with_images ∧ 1 < length candidate_with_images
  ∧ (validateSisterData (H := ascii_engine) (HRef 0) candidate_with_images).2 !! 0
    = candidate_with_images !! 0
  ∧ (validateSisterData (H := ascii_engine) (HRef 0) candidate_with_images).2 !! 1
    = candidate_with_images !! 1.
Proof.
  assert (0 < length candidate_with_images) as H0 by (simpl; lia).
  assert (1 < length candidate_with_images) as H1 by (simpl; lia).
  split; [exact H0|]. split; [exact H1|].
  split.
  - exact (proj1 (C10_validate_leaves_its_argument (H := ascii_engine) (HRef 0)
                    candidate_with_images) 0 H0).
  - exact (proj1 (C10_validate_leaves_its_argument (H := ascii_engine) (HRef 0)
                    candidate_with_images) 1 H1).
Defined.

(** ** The model on further inputs *)

(** The lookup ignores case and surrounding blanks. *)
Example lookup_ignores_case_and_blanks :
  (getSisterData (H := ascii_engine) serving (VStr "  aNU ") fresh_session).1
    = Normal (sample_record "Anu")
  ∧ (checkSisterExists (H := ascii_engine) serving (VStr "  aNU ") fresh_session).1
    = Normal (VBool true).
Proof. split; reflexivity. Qed.

(** Of two Records with the same key the lookup returns the first. *)
Example lookup_returns_first_of_two :
  (getSisterData (H := ascii_engine) serving (VStr "priya") fresh_session).1
    = Normal (sample_record " Priya ").
Proof. reflexivity. Qed.

(** The empty name matches no Record of [sample_document]. *)
Example lookup_of_empty_name :
  (getSisterData (H := ascii_engine) serving (VStr "") fresh_session).1 = Normal VNull
  ∧ (checkSisterExists (H := ascii_engine) serving (VStr "") fresh_session).1
    = Normal (VBool false).
Proof. split; reflexivity. Qed.

(** An argument that is not a string makes [name.toLowerCase()] throw; the
    lookup logs the error and answers [false]. *)
Example lookup_of_a_number :
  checkSisterExists (H := ascii_engine) serving (VNum 3) fresh_session
  = (Normal (VBool false),
     {| sistersData := VArr sample_document; fetches := 1;
        console := [("Error checking sister existence:",
                     TypeError "toLowerCase is not a function")] |}).
Proof. reflexivity. Qed.

(** Outside the data model: an element without a [name] in front of the
    match makes the scan throw, and the lookup answers [null]. *)
Example lookup_past_an_element_without_name :
  (getSisterData (H := ascii_engine) offline (VStr "anu")
     {| sistersData := VArr [VObj []; sample_record "Anu"]; fetches := 0;
        console := [] |}).1
  = Normal VNull.
Proof. reflexivity. Qed.

(** A blank name is reported like a missing one, and a blank image entry
    is skipped. *)
Example validate_blank_name_and_blank_image :
  let h := [CObject [("name", HStr "   "); ("greeting", HStr "G");
                     ("message", HStr "M"); ("images", HRef 1)];
            CArray [HStr "  "; HStr ""; HNull; HStr "ftp://host/a.png"; HStr "a b"]] in
  let '(r, h') := validateSisterData (H := ascii_engine) (HRef 0) h in
  r = Normal (HRef 3)
  ∧ result_at h' (HRef 3) = Some (false, ["Name is required"; "Image URL 5 is not valid"]).
Proof. split; reflexivity. Qed.

(** An image entry that is a number makes [url.trim()] throw out of the
    loop and out of the function. *)
Example validate_numeric_image_entry :
  (validateSisterData (H := ascii_engine) (HRef 0)
     [CObject [("name", HStr "A"); ("greeting", HStr "G"); ("message", HStr "M");
               ("images", HRef 1)];
      CArray [HNum 7]]).1
  = Throw (TypeError "trim is not a function").
Proof. reflexivity. Qed.

(** * Further properties of the code *)

(** ** The loader and the lookups *)

(** X1. [loadSistersData] replaces the store and merges nothing: what it
    stores and returns depends on the response alone, not on the store it
    finds.  Every call issues one request, and writes one line to the
    console exactly when the load fails. *)
Theorem X1_load_replaces_without_merge (network : nat → fetch_result) (s1 s2 : session) :
  fetches s1 = fetches s2 →
  (loadSistersData network s1).1 = (loadSistersData network s2).1
  ∧ sistersData (loadSistersData network s1).2 = sistersData (loadSistersData network s2).2
  ∧ fetches (loadSistersData network s1).2 = S (fetches s1)
  ∧ ∃ log, console (loadSistersData network s1).2 = console s1 ++ log
           ∧ length log ≤ 1
           ∧ (log = [] ↔ ¬ load_fails (network (fetches s1))).
Proof.
  intros Hsame.
  destruct (loaded_document (network (fetches s1))) as [v|] eqn:Hdoc.
  - rewrite (load_run_ok network s1 v Hdoc), (load_run_ok network s2 v) by congruence.
    simpl. split_and!; try done. exists []. rewrite app_nil_r.
    split_and!; [done|simpl; lia|].
    split; [|done]. intros _ Hfail%load_fails_no_document. congruence.
  - pose proof (proj2 (load_fails_no_document _) Hdoc) as Hfail.
    destruct (load_run_fail network s1 Hfail) as [e ->].
    destruct (load_run_fail network s2) as [e' ->]; [congruence|].
    simpl. split_and!; try done. eexists.
    split_and!; [done|simpl; lia|]. split; [done|]. by intros [].
Qed.

Section MoreLookupFacts.
Context `{Builtins}.
Variable network : nat → fetch_result.

Lemma exists_scan_key n1 n2 (t : session) :
  key n1 = key n2 → exists_scan (VStr n1) t = exists_scan (VStr n2) t.
Proof. intros Hk. unfold exists_scan. by rewrite !run_bind, !normalized_string, Hk. Qed.

Lemma find_scan_key n1 n2 (t : session) :
  key n1 = key n2 → find_scan (VStr n1) t = find_scan (VStr n2) t.
Proof. intros Hk. unfold find_scan. by rewrite !run_bind, !normalized_string, Hk. Qed.

(** The callback throws on everything that is not a Record. *)
Lemma name_matches_non_record k x (s : session) :
  ¬ is_record x → ∃ e, name_matches k x s = (Throw e, s).
Proof.
  intros Hx. destruct (name_matches_cases k x s) as [He|[He|[He Hrec]]]; [done| |done].
  unfold name_matches in *. rewrite run_bind in *.
  destruct x as [| | | | |?|fields]; simpl in *; eauto.
  destruct (lookup_field "name" fields) as [[| | | |n| |]|] eqn:Hf; simpl in *; eauto.
  destruct Hx. exists n. simpl. by rewrite Hf.
Qed.

(** The scans walk past the Records that do not match. *)
Lemma find_loop_skip name before rest (s : session) :
  Forall is_record before → Forall (λ x, ¬ matches name x) before →
  find_loop (name_matches (VStr (key name))) (before ++ rest) s
  = find_loop (name_matches (VStr (key name))) rest s.
Proof.
  induction 1 as [|x before Hx _ IH]; intros Hno; [done|].
  apply Forall_cons in Hno as [Hnx Hno]. simpl.
  rewrite run_bind, name_matches_record by done.
  apply matchesb_false in Hnx. rewrite Hnx. simpl. by apply IH.
Qed.

Lemma some_loop_skip name before rest (s : session) :
  Forall is_record before → Forall (λ x, ¬ matches name x) before →
  some_loop (name_matches (VStr (key name))) (before ++ rest) s
  = some_loop (name_matches (VStr (key name))) rest s.
Proof.
  induction 1 as [|x before Hx _ IH]; intros Hno; [done|].
  apply Forall_cons in Hno as [Hnx Hno]. simpl.
  rewrite run_bind, name_matches_record by done.
  apply matchesb_false in Hnx. rewrite Hnx. simpl. by apply IH.
Qed.

Lemma matches_is_record name r : matches name r → is_record r.
Proof. intros (n & Hn & _). by exists n. Qed.

(** A store that is no array makes both scans throw. *)
Lemma answers_no_array name (t : session) :
  (∀ l, sistersData t ≠ VArr l) →
  exists_answer name t = VBool false ∧ find_answer name t = VNull.
Proof.
  intros Hst. unfold exists_answer, find_answer, exists_scan, find_scan.
  rewrite !run_bind.
  destruct (pure_normalized name) as [[k|e] Hk]; rewrite Hk; [|done].
  rewrite !run_bind. simpl.
  destruct (sistersData t) as [| | | | |l|]; try done. by destruct (Hst l).
Qed.

End MoreLookupFacts.

(** X2. The lookups see a name through its key only: two names that are
    equal once lower-cased and trimmed get the same answer, and leave the
    same session, from both lookups, whatever the store. *)
Theorem X2_lookup_depends_on_key `{Builtins} (network : nat → fetch_result)
    (s : session) (n1 n2 : string) :
  key n1 = key n2 →
  checkSisterExists network (VStr n1) s = checkSisterExists network (VStr n2) s
  ∧ getSisterData network (VStr n1) s = getSisterData network (VStr n2) s.
Proof.
  intros Hk. rewrite !checkSisterExists_run, !getSisterData_run.
  by rewrite (exists_scan_key n1 n2), (find_scan_key n1 n2).
Qed.

(** X3. The scan stops at the first match: when the store is an array in
    which only Records that do not match come before a Record that does,
    [getSisterData] returns that Record and [checkSisterExists] returns
    [true], whatever follows it in the array, Record or not. *)
Theorem X3_lookup_stops_at_first_match `{Builtins} (network : nat → fetch_result)
    (s : session) (name : string) (before after : list value) (r : value) :
  sistersData (populated network s) = VArr (before ++ r :: after) →
  Forall is_record before →
  Forall (λ x, ¬ matches name x) before →
  matches name r →
  getSisterData network (VStr name) s = (Normal r, populated network s)
  ∧ checkSisterExists network (VStr name) s = (Normal (VBool true), populated network s).
Proof.
  intros Hstore Hrec Hno Hr.
  pose proof (matches_is_record _ _ Hr) as Hrr.
  rewrite getSisterData_run, checkSisterExists_run.
  rewrite (ensure_loaded_on_array _ _ _ Hstore).
  unfold find_scan, exists_scan.
  rewrite !run_bind, !normalized_string, !run_bind. simpl. rewrite Hstore. simpl.
  rewrite run_bind, find_loop_skip, some_loop_skip by done. simpl.
  rewrite !run_bind, !name_matches_record by done.
  apply matchesb_spec in Hr. rewrite Hr. simpl.
  by rewrite record_truthy.
Qed.

(** X4. An element that is not a Record hides what follows it: when it
    comes before any match, the scan throws on it, the lookups log the
    error and answer [null] and [false], also when a matching Record stands
    later in the store. *)
Theorem X4_lookup_fails_at_non_record `{Builtins} (network : nat → fetch_result)
    (s : session) (name : string) (before after : list value) (x : value) :
  sistersData (populated network s) = VArr (before ++ x :: after) →
  Forall is_record before →
  Forall (λ y, ¬ matches name y) before →
  ¬ is_record x →
  (∃ e, getSisterData network (VStr name) s
        = (Normal VNull,
           (console_error "Error getting sister data:" e (populated network s)).2))
  ∧ (∃ e, checkSisterExists network (VStr name) s
          = (Normal (VBool false),
             (console_error "Error checking sister existence:" e
                (populated network s)).2)).
Proof.
  intros Hstore Hrec Hno Hx.
  rewrite getSisterData_run, checkSisterExists_run.
  rewrite (ensure_loaded_on_array _ _ _ Hstore).
  unfold find_scan, exists_scan.
  rewrite !run_bind, !normalized_string, !run_bind. simpl. rewrite Hstore. simpl.
  rewrite run_bind, find_loop_skip, some_loop_skip by done. simpl.
  rewrite !run_bind.
  destruct (name_matches_non_record (VStr (key name)) x (populated network s) Hx)
    as [e ->].
  simpl. eauto.
Qed.


(** X6. A store that is neither an array nor empty stays: no lookup ever
    reloads it, and every lookup answers [false] or [null].  A document
    whose root is an object is therefore never recovered from, whereas a
    failed load is retried. *)
Theorem X6_non_array_store_is_kept `{Builtins} (network : nat → fetch_result)
    (s : session) (cs : list lookup) (c : lookup) :
  (∀ l, sistersData s ≠ VArr l) →
  store_is_empty (sistersData s) = false →
  (run_lookup network c (run_lookups network cs s)).1 = Normal (lookup_default c)
  ∧ sistersData (run_lookup network c (run_lookups network cs s)).2 = sistersData s
  ∧ fetches (run_lookup network c (run_lookups network cs s)).2 = fetches s.
Proof.
  intros Hno Hfull.
  destruct (run_lookups_loaded network cs s Hfull) as [Hf Hst].
  set (s' := run_lookups network cs s) in *.
  assert (populated network s' = s') as Hp by (apply populated_store; by rewrite Hst).
  destruct (run_lookup_result network c s') as [Hst' Hf'].
  rewrite Hp in Hst', Hf'. split_and!; [|congruence..].
  destruct (answers_no_array (match c with Exists n | Find n => n end) s') as [He Hg];
    [by rewrite Hst|].
  destruct c as [name|name]; simpl in *.
  - destruct (checkSisterExists_result network name s') as (s1 & -> & _).
    by rewrite Hp, He.
  - destruct (getSisterData_result network name s') as (s1 & -> & _).
    by rewrite Hp, Hg.
Qed.

(** *** The properties of the loader and the lookups on concrete inputs *)

Lemma X1_load_witness :
  fetches fresh_session = fetches loaded_session
  ∧ sistersData (loadSistersData offline fresh_session).2
    = sistersData (loadSistersData offline loaded_session).2.
Proof.
  split; [reflexivity|].
  exact (proj1 (proj2 (X1_load_replaces_without_merge offline fresh_session
                         loaded_session eq_refl))).
Defined.

Lemma X2_key_witness :
  key (H := ascii_engine) "  PRIYA" = key (H := ascii_engine) "priya "
  ∧ checkSisterExists (H := ascii_engine) serving (VStr "  PRIYA") fresh_session
    = checkSisterExists (H := ascii_engine) serving (VStr "priya ") fresh_session
  ∧ getSisterData (H := ascii_engine) serving (VStr "  PRIYA") fresh_session
    = getSisterData (H := ascii_engine) serving (VStr "priya ") fresh_session.
Proof.
  split; [reflexivity|].
  exact (X2_lookup_depends_on_key (H := ascii_engine) serving fresh_session
           "  PRIYA" "priya " eq_refl).
Defined.

Lemma meera_is_not_anu : ¬ matches (H := ascii_engine) "anu" (sample_record "Meera").
Proof. by apply matchesb_false. Qed.

Lemma X3_first_match_witness :
  getSisterData (H := ascii_engine) offline (VStr "meera") mixed_session
    = (Normal (sample_record "Meera"), populated offline mixed_session)
  ∧ checkSisterExists (H := ascii_engine) offline (VStr "meera") mixed_session
    = (Normal (VBool true), populated offline mixed_session).
Proof.
  apply (X3_lookup_stops_at_first_match (H := ascii_engine) offline mixed_session
           "meera" [] [VNum 7; sample_record "Anu"] (sample_record "Meera")).
  - reflexivity.
  - constructor.
  - constructor.
  - by apply matchesb_spec.
Defined.

Lemma X4_hidden_match_witness :
  (∃ e, getSisterData (H := ascii_engine) offline (VStr "anu") mixed_session
        = (Normal VNull,
           (console_error "Error getting sister data:" e
              (populated offline mixed_session)).2))
  ∧ (∃ e, checkSisterExists (H := ascii_engine) offline (VStr "anu") mixed_session
          = (Normal (VBool false),
             (console_error "Error checking sister existence:" e
                (populated offline mixed_session)).2)).
Proof.
  apply (X4_lookup_fails_at_non_record (H := ascii_engine) offline mixed_session
           "anu" [sample_record "Meera"] [sample_record "Anu"] (VNum 7)).
  - reflexivity.
  - constructor; [by eexists|constructor].
  - constructor; [exact meera_is_not_anu|constructor].
  - by intros [n Hn].
Defined.


Lemma X6_object_store_witness :
  (run_lookup (H := ascii_engine) serving (Find (VStr "priya"))
     (run_lookups (H := ascii_engine) serving [Exists (VStr "anu")] object_session)).1
    = Normal VNull
  ∧ sistersData
      (run_lookup (H := ascii_engine) serving (Find (VStr "priya"))
         (run_lookups (H := ascii_engine) serving [Exists (VStr "anu")] object_session)).2
    = sistersData object_session
  ∧ fetches
      (run_lookup (H := ascii_engine) serving (Find (VStr "priya"))
         (run_lookups (H := ascii_engine) serving [Exists (VStr "anu")] object_session)).2
    = fetches object_session.
Proof.
  apply (X6_non_array_store_is_kept (H := ascii_engine) serving object_session
           [Exists (VStr "anu")] (Find (VStr "priya"))).
  - intros l Hl. discriminate Hl.
  - reflexivity.
Defined.

(** ** The validator *)

Section MoreValidatorFacts.
Context `{Builtins}.

Lemma required_errors_nil fields :
  required_errors fields = [] ↔
  blank (field fields "name") = false
  ∧ blank (field fields "greeting") = false
  ∧ blank (field fields "message") = false.
Proof.
  unfold required_errors.
  destruct (blank (field fields "name")), (blank (field fields "greeting")),
    (blank (field fields "message")); simpl;
    (split; [intros Hnil; by try discriminate Hnil|by intros (? & ? & ?)]).
Qed.

Lemma image_errors_from_nil k entries :
  image_errors_from k entries = [] ↔
  ∀ i s, entries !! i = Some (HStr s) → nonblank s = true → URL_parses s = true.
Proof.
  split.
  - intros Hnil i s Hi Hb. destruct (URL_parses s) eqn:Hu; [done|].
    assert (image_message (k + i) ∈ image_errors_from k entries) as Hin
      by (apply elem_of_image_errors_from; eauto 10).
    rewrite Hnil in Hin. by apply elem_of_nil in Hin.
  - intros Hall. destruct (image_errors_from k entries) as [|msg rest] eqn:Herrs; [done|].
    assert (msg ∈ image_errors_from k entries) as Hin by (rewrite Herrs; left).
    apply elem_of_image_errors_from in Hin as (i & s & Hi & Hb & Hu & _).
    rewrite (Hall i s Hi Hb) in Hu. done.
Qed.

(** A primitive other than [null] and [undefined] has none of the fields:
    each required check pushes its error. *)
Lemma primitive_check {B} (h : heap) errs v k msg (rest : () → JS heap B) :
  (∀ l, v ≠ HRef l) → v ≠ HUndefined → v ≠ HNull → String.eqb k "length" = false →
  (c ← missing_or_blank v k; when c (push (HRef (length h)) (HStr msg)) ≫= rest)
    (h ++ [CArray errs])
  = rest () (h ++ [CArray (errs ++ [HStr msg])]).
Proof.
  intros Href Hu Hn Hk.
  assert (missing_or_blank v k (h ++ [CArray errs]) = (Normal true, h ++ [CArray errs]))
    as Hcheck.
  { unfold missing_or_blank. rewrite run_bind.
    destruct v as [| |b|n|s|l]; try done; simpl; rewrite ?Hk; try done.
    by destruct (Href l). }
  rewrite run_bind, Hcheck, run_bind. cbn [when]. by rewrite push_top.
Qed.

Lemma primitive_images {B} (st : heap) errors v (rest : () → JS heap B) :
  (∀ l, v ≠ HRef l) → v ≠ HUndefined → v ≠ HNull →
  (images ← hget_prop v "images";
   c4 ← (if htruthy images
         then images' ← hget_prop v "images"; isArray images'
         else mret false);
   when c4 (images'' ← hget_prop v "images"; forEach images'' (check_image errors))
     ≫= rest) st
  = rest () st.
Proof.
  intros Href Hu Hn. destruct v as [| |b|n|s|l]; try done. by destruct (Href l).
Qed.

End MoreValidatorFacts.

(** X7. What makes a candidate valid.  On a candidate whose fields are
    strings or falsy, [isValid] is [true] exactly when [name], [greeting]
    and [message] are not blank and, if [images] is an array, each of its
    entries that is a non-blank string parses as a URL. *)
Theorem X7_valid_exactly_when `{Builtins} (h : heap) (c : loc)
    (fields : list (string * hval)) :
  h !! c = Some (CObject fields) →
  well_typed h (HRef c) = true →
  ∃ r h' isValid errors,
    validateSisterData (HRef c) h = (Normal r, h')
    ∧ result_at h' r = Some (isValid, errors)
    ∧ (isValid = true ↔
       blank (field fields "name") = false
       ∧ blank (field fields "greeting") = false
       ∧ blank (field fields "message") = false
       ∧ ∀ entries i s,
           images_of h fields = Some entries →
           entries !! i = Some (HStr s) →
           nonblank s = true → URL_parses s = true).
Proof.
  intros Hc Hty. eexists _, _, _, _.
  split; [by apply validate_typed|]. split; [apply result_at_after|].
  rewrite no_errors_iff_valid. unfold expected_errors.
  rewrite app_nil, required_errors_nil.
  destruct (images_of h fields) as [entries|].
  - rewrite image_errors_from_nil. split.
    + intros [(? & ? & ?) Hall]. split_and!; try done.
      intros entries' i s [= <-]. apply Hall.
    + intros (? & ? & ? & Hall). split_and!; try done.
      intros i s. by apply Hall.
  - split; [intros [(? & ? & ?) _]|intros (? & ? & ? & _)]; by split_and!.
Qed.

(** X8. A candidate that is no object.  [null] and [undefined] make the
    first read, [sisterData.name], throw a TypeError; any other primitive
    has none of the three fields and gets the three errors. *)
Theorem X8_candidate_that_is_no_object `{Builtins} (h : heap) (sisterData : hval) :
  (∀ l, sisterData ≠ HRef l) →
  validateSisterData sisterData h
  = match sisterData with
    | HUndefined | HNull =>
        (Throw (TypeError "Cannot read properties of undefined or null (reading name)"),
         h ++ [CArray []])
    | _ =>
        (Normal (HRef (S (length h))),
         heap_after h [HStr "Name is required"; HStr "Greeting is required";
                       HStr "Message is required"])
    end.
Proof.
  intros Hprim. unfold validateSisterData. rewrite run_bind. unfold alloc at 1.
  destruct sisterData as [| |b|n|s|l]; try reflexivity; try by destruct (Hprim l).
  - rewrite !primitive_check by done. rewrite primitive_images by done. apply finish_run.
  - rewrite !primitive_check by done. rewrite primitive_images by done. apply finish_run.
  - rewrite !primitive_check by done. rewrite primitive_images by done. apply finish_run.
Qed.

Lemma X7_valid_witness :
  ∃ r h' isValid errors,
    validateSisterData (H := ascii_engine) (HRef 0) candidate_with_images = (Normal r, h')
    ∧ result_at h' r = Some (isValid, errors)
    ∧ (isValid = true ↔
       blank (H := ascii_engine) (HStr "A") = false
       ∧ blank (H := ascii_engine) (HStr "G") = false
       ∧ blank (H := ascii_engine) (HStr "M") = false
       ∧ ∀ entries i s,
           images_of candidate_with_images
             [("name", HStr "A"); ("greeting", HStr "G"); ("message", HStr "M");
              ("images", HRef 1)] = Some entries →
           entries !! i = Some (HStr s) →
           nonblank (H := ascii_engine) s = true →
           URL_parses (Builtins := ascii_engine) s = true).
Proof.
  exact (X7_valid_exactly_when (H := ascii_engine) candidate_with_images 0 _
           eq_refl eq_refl).
Defined.

Lemma X8_string_candidate_witness :
  validateSisterData (H := ascii_engine) (HStr "Priya") []
  = (Normal (HRef 1),
     heap_after [] [HStr "Name is required"; HStr "Greeting is required";
                    HStr "Message is required"]).
Proof.
  apply (X8_candidate_that_is_no_object (H := ascii_engine) [] (HStr "Priya")).
  intros l Hl. discriminate Hl.
Defined.

(** ** The helpers of the page *)

Lemma strict_eq_string (v : value) (s : string) : strict_eq v (VStr s) = true ↔ v = VStr s.
Proof.
  destruct v; simpl; try (split; [discriminate|discriminate]).
  rewrite String.eqb_eq. naive_solver.
Qed.

(** The four kinds of toast. *)
Lemma toast_kinds (type : value) :
  (type = VStr "success"
   ∧ getToastIcon type = "check-circle" ∧ getToastColor type = "#28a745")
  ∨ (type = VStr "error"
     ∧ getToastIcon type = "exclamation-circle" ∧ getToastColor type = "#dc3545")
  ∨ (type = VStr "warning"
     ∧ getToastIcon type = "exclamation-triangle" ∧ getToastColor type = "#ffc107")
  ∨ ((type ≠ VStr "success" ∧ type ≠ VStr "error" ∧ type ≠ VStr "warning")
     ∧ getToastIcon type = "info-circle" ∧ getToastColor type = "#17a2b8").
Proof.
  unfold getToastIcon, getToastColor.
  destruct (strict_eq type (VStr "success")) eqn:Hs.
  { apply strict_eq_string in Hs. by left. }
  destruct (strict_eq type (VStr "error")) eqn:He.
  { apply strict_eq_string in He. by right; left. }
  destruct (strict_eq type (VStr "warning")) eqn:Hw.
  { apply strict_eq_string in Hw. by right; right; left. }
  right; right; right. split; [|done].
  split_and!; intros Heq; apply strict_eq_string in Heq; congruence.
Qed.

(** X9. The two helpers sort the types of a toast alike: two types get the
    same icon exactly when they get the same colour, and a type gets the
    icon and the colour of an information exactly when it is none of
    'success', 'error' and 'warning'. *)
Theorem X9_toast_icon_and_color_agree (type type' : value) :
  (getToastIcon type = getToastIcon type' ↔ getToastColor type = getToastColor type')
  ∧ (getToastIcon type = "info-circle" ↔
     type ≠ VStr "success" ∧ type ≠ VStr "error" ∧ type ≠ VStr "warning")
  ∧ (getToastColor type = "#17a2b8" ↔
     type ≠ VStr "success" ∧ type ≠ VStr "error" ∧ type ≠ VStr "warning").
Proof.
  destruct (toast_kinds type) as [(Ht & -> & ->)|[(Ht & -> & ->)|[(Ht & -> & ->)|(Ht & -> & ->)]]],
    (toast_kinds type') as [(_ & -> & ->)|[(_ & -> & ->)|[(_ & -> & ->)|(_ & -> & ->)]]];
    (split_and!; (split; [intros Heq|intros Heq]); try done; try discriminate Heq;
     try (by destruct Heq as (? & ? & ?))).
Qed.

Lemma occurs_app c (s1 s2 : string) : occurs c (s1 +:+ s2) = occurs c s1 || occurs c s2.
Proof.
  induction s1 as [|c1 s1 IH]; [done|].
  change (Ascii.eqb c c1 || occurs c (s1 +:+ s2)
          = (Ascii.eqb c c1 || occurs c s1) || occurs c s2).
  by rewrite IH, orb_assoc.
Qed.

Lemma occurs_newline_replaced s : occurs "010"%char (replace_newlines s) = false.
Proof.
  induction s as [|c s IH]; [done|]. cbn [replace_newlines].
  destruct (Ascii.eqb c "010"%char) eqn:Hc.
  - by rewrite occurs_app, IH.
  - cbn [occurs]. by rewrite Ascii.eqb_sym, Hc, IH.
Qed.

Lemma only_br_tags_replaced s :
  occurs "<"%char s = false → only_br_tags (replace_newlines s).
Proof.
  induction s as [|c s IH]; [constructor|]. cbn [occurs replace_newlines].
  intros [Hc Hs]%orb_false_elim. specialize (IH Hs).
  destruct (Ascii.eqb c "010"%char); [by constructor|].
  constructor; [|done]. intros ->. by rewrite Ascii.eqb_refl in Hc.
Qed.

Lemma ascii_escape_no_tag s : occurs "<"%char (ascii_escape s) = false.
Proof.
  induction s as [|c s IH]; [done|]. cbn [ascii_escape].
  rewrite occurs_app, IH, orb_false_r.
  destruct (Ascii.eqb c "&"%char); [done|].
  destruct (Ascii.eqb c "<"%char) eqn:Hc; [done|].
  destruct (Ascii.eqb c ">"%char); [done|].
  cbn [occurs]. by rewrite Ascii.eqb_sym, Hc.
Qed.

(** X10. The text [formatText] returns holds no line feed: every one has
    become a tag, whatever the document object model answers. *)
Theorem X10_formatText_leaves_no_newline `{DOM} (text : value) :
  occurs "010"%char (formatText text) = false.
Proof.
  unfold formatText. destruct (negb (truthy text)); [done|].
  apply occurs_newline_replaced.
Qed.

(** X11. When the serialisation of a text holds no ["<"], as that of a
    browser does, every ["<"] of the text [formatText] returns opens a
    ["<br>"] that stands for a line feed: no markup of the text itself
    gets through. *)
Theorem X11_formatText_only_br_tags `{DOM} (text : value) :
  (∀ v, occurs "<"%char (innerHTML_of_text v) = false) →
  only_br_tags (formatText text).
Proof.
  intros Hescaped. unfold formatText. destruct (negb (truthy text)); [constructor|].
  apply only_br_tags_replaced, Hescaped.
Qed.

Lemma ascii_dom_no_tag v : occurs "<"%char (innerHTML_of_text (DOM := ascii_dom) v) = false.
Proof. destruct v; try done. apply ascii_escape_no_tag. Qed.

Lemma X11_formatText_witness :
  only_br_tags (formatText (H := ascii_dom) (VStr "<b>two
lines</b>")).
Proof.
  exact (X11_formatText_only_br_tags (H := ascii_dom) (VStr "<b>two
lines</b>") ascii_dom_no_tag).
Defined.

(** ** The debounced function *)

Section DebounceFacts.
Context {Args : Type}.
Variable wait : nat.
Implicit Types (d : debounced Args) (h : list (entry Args)).

Lemma waiting_snoc h e :
  waiting Args (h ++ [e])
  = match e with Called t a => Some (t, a) | Invoked _ _ => None end.
Proof. unfold waiting. by rewrite fold_left_app. Qed.

Lemma invoked_args_snoc h e :
  invoked_args Args (h ++ [e])
  = invoked_args Args h ++ match e with Invoked _ a => [a] | Called _ _ => [] end.
Proof. unfold invoked_args. rewrite omap_app. by destruct e. Qed.

Lemma called_args_snoc h e :
  called_args Args (h ++ [e])
  = called_args Args h ++ match e with Called _ a => [a] | Invoked _ _ => [] end.
Proof. unfold called_args. rewrite omap_app. by destruct e. Qed.

(** Where an invocation can stand in a history that has just grown. *)
Lemma snoc_split h e h1 x h2 :
  h ++ [e] = h1 ++ x :: h2 →
  (h2 = [] ∧ h = h1 ∧ e = x) ∨ (∃ h2', h2 = h2' ++ [e] ∧ h = h1 ++ x :: h2').
Proof.
  destruct h2 as [|y h2 _] using rev_ind; intros Heq.
  - apply app_inj_tail in Heq as [-> ->]. by left.
  - right. exists h2.
    change (h ++ [e] = h1 ++ (x :: h2) ++ [y]) in Heq.
    rewrite app_assoc in Heq. by apply app_inj_tail in Heq as [-> ->].
Qed.

Lemma only_after_wait_called h t a :
  only_after_wait wait h → only_after_wait wait (h ++ [Called t a]).
Proof.
  intros Hh h1 t' a' h2 Heq.
  apply snoc_split in Heq as [(_ & _ & Heq)|(h2' & _ & Heq)]; [done|].
  by apply (Hh h1 t' a' h2').
Qed.

Lemma only_after_wait_invoked h0 t a t' :
  only_after_wait wait (h0 ++ [Called t a]) →
  Forall (λ e, entry_time Args e ≤ t) h0 →
  t + wait ≤ t' →
  only_after_wait wait ((h0 ++ [Called t a]) ++ [Invoked t' a]).
Proof.
  intros Hh Hbefore Hdue h1 t'' a'' h2 Heq.
  apply snoc_split in Heq as [(_ & <- & [= <- <-])|(h2' & _ & Heq)].
  - exists h0, t. split_and!; [done|done|].
    apply Forall_app. split; [|by repeat constructor].
    eapply Forall_impl; [exact Hbefore|]. simpl. lia.
  - by apply (Hh h1 t'' a'' h2').
Qed.

(** The new state of a call, under the invariant. *)
Lemma executedFunction_run d args :
  debounce_invariant wait d →
  executedFunction Args wait args d
  = {| timeout := Some (next_timer Args d);
       pending := [{| timer_id := next_timer Args d; due := now Args d + wait;
                      later_args := args |}];
       next_timer := S (next_timer Args d);
       now := now Args d;
       history := history Args d ++ [Called (now Args d) args] |}.
Proof.
  intros (_ & _ & Hw). unfold executedFunction, setTimeout, clearTimeout, log. simpl.
  destruct (waiting Args (history Args d)) as [[t a]|].
  - destruct Hw as (id & h0 & Hp & Hid & _). rewrite Hid, Hp. simpl.
    by rewrite Nat.eqb_refl.
  - destruct Hw as [Hp _]. rewrite Hp. by destruct (timeout Args d).
Qed.

(** A timer fires only for the call that is waiting, once it is due, and
    then invokes [func] with the arguments of that call. *)
Lemma fire_run d id d' :
  debounce_invariant wait d →
  fire Args id d = Some d' →
  ∃ t a h0,
    waiting Args (history Args d) = Some (t, a)
    ∧ history Args d = h0 ++ [Called t a]
    ∧ timeout Args d = Some id
    ∧ t + wait ≤ now Args d
    ∧ d' = {| timeout := Some id; pending := []; next_timer := next_timer Args d;
              now := now Args d;
              history := history Args d ++ [Invoked (now Args d) a] |}.
Proof.
  intros (_ & _ & Hw) Hfire. unfold fire in Hfire.
  destruct (waiting Args (history Args d)) as [[t a]|].
  - destruct Hw as (id0 & h0 & Hp & Hid & Hh & _). rewrite Hp in Hfire. simpl in Hfire.
    destruct (Nat.eqb id0 id) eqn:Heq; [|done]. apply Nat.eqb_eq in Heq as ->.
    simpl in Hfire. destruct (t + wait <=? now Args d) eqn:Hdue; [|done].
    apply Nat.leb_le in Hdue. injection Hfire as <-.
    exists t, a, h0. split_and!; try done.
    unfold later, clearTimeout, log. simpl. by rewrite Hid.
  - destruct Hw as [Hp _]. by rewrite Hp in Hfire.
Qed.

Lemma debounce_invariant_created t0 :
  debounce_invariant wait (debounce (Args := Args) t0).
Proof.
  split_and!; [constructor| |by split].
  intros h1 t' a' h2 Heq. by destruct h1.
Qed.

Lemma debounce_invariant_step e d d' :
  debounce_invariant wait d → step Args wait e d = Some d' → debounce_invariant wait d'.
Proof.
  intros Hinv Hstep. pose proof Hinv as (Htimes & Hafter & Hw).
  destruct e as [args|ms|id]; simpl in Hstep.
  - injection Hstep as <-. rewrite executedFunction_run by done.
    unfold debounce_invariant. simpl. rewrite waiting_snoc. split_and!.
    + apply Forall_app. split; [done|by repeat constructor].
    + by apply only_after_wait_called.
    + eexists _, _. split_and!; try done.
      destruct (waiting Args (history Args d)) as [[t a]|].
      * destruct Hw as (id & h0 & _ & _ & -> & _ & Hsub).
        rewrite invoked_args_snoc, called_args_snoc, app_nil_r.
        by apply sublist_inserts_r.
      * by destruct Hw.
  - injection Hstep as <-. unfold debounce_invariant, elapse. simpl.
    split_and!; [|done|done].
    eapply Forall_impl; [exact Htimes|]. simpl. lia.
  - destruct (fire_run d id d' Hinv Hstep) as (t & a & h0 & Hwait & Hh & Hid & Hdue & ->).
    rewrite Hwait in Hw. destruct Hw as (id' & h0' & _ & _ & Hh' & Hbefore & Hsub).
    rewrite Hh in Hh'. apply app_inj_tail in Hh' as [<- _].
    unfold debounce_invariant. simpl. rewrite waiting_snoc. split_and!.
    + apply Forall_app. split; [done|by repeat constructor].
    + rewrite Hh. apply only_after_wait_invoked; [by rewrite <-Hh|done|done].
    + done.
    + rewrite Hh, !invoked_args_snoc, !called_args_snoc, !app_nil_r.
      by apply sublist_app.
Qed.

Lemma debounce_invariant_run es d d' :
  debounce_invariant wait d → run Args wait es d = Some d' → debounce_invariant wait d'.
Proof.
  revert d. induction es as [|e es IH]; intros d Hinv Hrun; simpl in Hrun.
  - by injection Hrun as <-.
  - destruct (step Args wait e d) as [d1|] eqn:Hstep; [|done].
    eapply IH; [|done]. by eapply debounce_invariant_step.
Qed.

Lemma waiting_sublist d :
  debounce_invariant wait d →
  invoked_args Args (history Args d) `sublist_of` called_args Args (history Args d).
Proof.
  intros (_ & _ & Hw). destruct (waiting Args (history Args d)) as [[t a]|].
  - destruct Hw as (id & h0 & _ & _ & -> & _ & Hsub).
    rewrite invoked_args_snoc, called_args_snoc, app_nil_r.
    by apply sublist_inserts_r.
  - by destruct Hw.
Qed.

End DebounceFacts.

(** X12. At most one timer.  In every state a debounced function reaches,
    at most one of its timers is pending; it is the one the variable
    [timeout] names, it was set by the latest call, and it is due [wait]
    after that call with the arguments of that call. *)
Theorem X12_debounce_one_timer {Args : Type} (wait t0 : nat) (es : list (event Args))
    (d : debounced Args) :
  run Args wait es (debounce t0) = Some d →
  length (pending Args d) ≤ 1
  ∧ ∀ tm, tm ∈ pending Args d →
      timeout Args d = Some (timer_id Args tm)
      ∧ ∃ h0 t, history Args d = h0 ++ [Called t (later_args Args tm)]
                ∧ due Args tm = t + wait.
Proof.
  intros Hrun.
  destruct (debounce_invariant_run wait es _ d (debounce_invariant_created wait t0) Hrun)
    as (_ & _ & Hw).
  destruct (waiting Args (history Args d)) as [[t a]|].
  - destruct Hw as (id & h0 & -> & Hid & Hh & _). split; [simpl; lia|].
    intros tm ->%list_elem_of_singleton. simpl. eauto.
  - destruct Hw as [-> _]. split; [simpl; lia|]. by intros tm ?%elem_of_nil.
Qed.

(** X13. Never before the wait is over.  Every invocation of [func] comes
    right after the call whose arguments it gets, with no call in between,
    and at least [wait] milliseconds after that call and after every call
    and invocation before it. *)
Theorem X13_debounce_invokes_after_wait {Args : Type} (wait t0 : nat)
    (es : list (event Args)) (d : debounced Args)
    (h1 h2 : list (entry Args)) (t' : nat) (a' : Args) :
  run Args wait es (debounce t0) = Some d →
  history Args d = h1 ++ Invoked t' a' :: h2 →
  ∃ h0 t, h1 = h0 ++ [Called t a'] ∧ t + wait ≤ t'
          ∧ Forall (λ e, entry_time Args e + wait ≤ t') h1.
Proof.
  intros Hrun Hh.
  destruct (debounce_invariant_run wait es _ d (debounce_invariant_created wait t0) Hrun)
    as (_ & Hafter & _).
  by apply (Hafter h1 t' a' h2).
Qed.

(** X14. No call is served twice.  The arguments [func] has been invoked
    with are, in order, some of the arguments the debounced function has
    been called with: calls may be dropped, none is repeated or
    reordered. *)
Theorem X14_debounce_drops_but_never_repeats {Args : Type} (wait t0 : nat)
    (es : list (event Args)) (d : debounced Args) :
  run Args wait es (debounce t0) = Some d →
  invoked_args Args (history Args d) `sublist_of` called_args Args (history Args d).
Proof.
  intros Hrun. apply (waiting_sublist wait).
  by apply (debounce_invariant_run wait es _ d (debounce_invariant_created wait t0)).
Qed.

(** X15. The last call gets through.  After a call, the timer it has set
    cannot fire before [wait] milliseconds have passed; once they have, and
    no other call has come, it fires and invokes [func] with the arguments
    of that call, and no timer is left. *)
Theorem X15_debounce_serves_last_call {Args : Type} (wait t0 : nat)
    (es : list (event Args)) (d : debounced Args) (args : Args) (ms : nat) :
  run Args wait es (debounce t0) = Some d →
  ∃ id,
    timeout Args (executedFunction Args wait args d) = Some id
    ∧ (ms < wait →
       step Args wait (Fire id) (elapse Args ms (executedFunction Args wait args d)) = None)
    ∧ (wait ≤ ms →
       ∃ d', step Args wait (Fire id) (elapse Args ms (executedFunction Args wait args d))
               = Some d'
             ∧ pending Args d' = []
             ∧ history Args d'
               = history Args d ++ [Called (now Args d) args;
                                    Invoked (now Args d + ms) args]).
Proof.
  intros Hrun.
  pose proof (debounce_invariant_run wait es _ d (debounce_invariant_created wait t0) Hrun)
    as Hinv.
  rewrite executedFunction_run by done. eexists. split; [done|].
  unfold elapse, step, fire. simpl. rewrite Nat.eqb_refl. simpl. split.
  - intros Hms. destruct (now Args d + wait <=? now Args d + ms) eqn:Hle; [|done].
    apply Nat.leb_le in Hle. lia.
  - intros Hms. destruct (now Args d + wait <=? now Args d + ms) eqn:Hle.
    + eexists. split; [done|]. unfold later, clearTimeout, log. simpl.
      rewrite ?Nat.eqb_refl. simpl. by rewrite <-app_assoc.
    + apply Nat.leb_gt in Hle. lia.
Qed.

Lemma burst_runs : run nat 300 burst (debounce 0) = Some after_burst.
Proof. reflexivity. Defined.

Lemma X12_burst_witness :
  length (pending nat after_burst) ≤ 1
  ∧ ∀ tm, tm ∈ pending nat after_burst →
      timeout nat after_burst = Some (timer_id nat tm)
      ∧ ∃ h0 t, history nat after_burst = h0 ++ [Called t (later_args nat tm)]
                ∧ due nat tm = t + 300.
Proof. exact (X12_debounce_one_timer 300 0 burst after_burst burst_runs). Defined.

Lemma X13_burst_witness :
  ∃ h0 t, [Called 0 1; Called 100 2; Called 399 3] = h0 ++ [Called t 3]
          ∧ t + 300 ≤ 699
          ∧ Forall (λ e, entry_time nat e + 300 ≤ 699)
              [Called 0 1; Called 100 2; Called 399 3].
Proof.
  exact (X13_debounce_invokes_after_wait 300 0 burst after_burst
           [Called 0 1; Called 100 2; Called 399 3] [Called 709 4] 699 3
           burst_runs eq_refl).
Defined.

Lemma X14_burst_witness :
  invoked_args nat (history nat after_burst)
    `sublist_of` called_args nat (history nat after_burst).
Proof. exact (X14_debounce_drops_but_never_repeats 300 0 burst after_burst burst_runs). Defined.

Lemma X15_burst_witness :
  ∃ id d',
    step nat 300 (Fire id) (elapse nat 300 (executedFunction nat 300 5 after_burst))
      = Some d'
    ∧ pending nat d' = []
    ∧ history nat d'
      = history nat after_burst ++ [Called (now nat after_burst) 5;
                                    Invoked (now nat after_burst + 300) 5].
Proof.
  destruct (X15_debounce_serves_last_call 300 0 burst after_burst 5 300 burst_runs)
    as (id & _ & _ & Hlate).
  destruct (Hlate (le_n 300)) as (d' & Hd').
  by exists id, d'.
Defined.

(** ** The probe of an image *)

Section ProbeFacts.
Context `{Builtins}.

Lemma resolve_settled v p : promise p ≠ Pending → resolve v p = p.
Proof. unfold resolve. by destruct (promise p). Qed.

Lemma react_settled e p : promise p ≠ Pending → react e p = p.
Proof.
  intros Hp. unfold react. destruct (requested p); [|done].
  destruct e; by apply resolve_settled.
Qed.

Lemma settle_settled es p : promise p ≠ Pending → settle es p = p.
Proof.
  revert p. induction es as [|e es IH]; intros p Hp; [done|].
  simpl. rewrite react_settled by done. by apply IH.
Qed.

Lemma settle_app es es' p : settle (es ++ es') p = settle es' (settle es p).
Proof. unfold settle. by rewrite fold_left_app. Qed.

(** A string that is not blank is requested. *)
Lemma probe_requested s :
  nonblank s = true →
  isValidImageURL (VStr s)
  = {| promise := Pending; requested := Some (VStr s); timer_set := true |}.
Proof.
  unfold isValidImageURL, falsy_or_blank, nonblank. intros Hnonblank. simpl in *.
  apply andb_prop in Hnonblank as [Hs Ht]. rewrite Hs. simpl.
  apply negb_true_iff in Ht. by rewrite Ht.
Qed.

End ProbeFacts.

(** X16. What [isValidImageURL] does before any answer of the browser.  A
    falsy address, or a string that is empty once trimmed, is answered
    [false] at once, with no request and no timer.  An address that is
    truthy and no string makes [url.trim()] throw in the executor: the
    promise is rejected with the TypeError, not fulfilled with [false].
    Any other string is requested, the timer is set and the promise
    waits. *)
Theorem X16_probe_before_any_answer `{Builtins} (url : value) :
  (truthy url = false ∨ (∃ s, url = VStr s ∧ nonblank s = false) →
   isValidImageURL url
   = {| promise := Fulfilled false; requested := None; timer_set := false |})
  ∧ (truthy url = true → (∀ s, url ≠ VStr s) →
     isValidImageURL url
     = {| promise := Failed (TypeError "trim is not a function");
          requested := None; timer_set := false |})
  ∧ (∀ s, url = VStr s → nonblank s = true →
     isValidImageURL url
     = {| promise := Pending; requested := Some url; timer_set := true |}).
Proof.
  split_and!; [| |intros s -> Hnonblank; by apply probe_requested];
    unfold isValidImageURL, falsy_or_blank, nonblank.
  - intros [Hfalsy|(s & -> & Hblank)].
    + by rewrite Hfalsy.
    + simpl in *. destruct (String.eqb s ""); [done|]. simpl in *.
      apply negb_false_iff in Hblank. by rewrite Hblank.
  - intros Htruthy Hnostring. rewrite Htruthy. simpl.
    destruct url as [| | | |s| |]; try done. by destruct (Hnostring s).
Qed.

(** X17. The first answer decides.  For an address that is requested, the
    promise is fulfilled by the first of the three events: [true] when the
    image loads first, [false] when it fails or the ten seconds are over
    first.  No later event changes a promise that is settled: an image
    that loads after the time-out is still reported invalid. *)
Theorem X17_probe_first_answer_decides `{Builtins} (s : string)
    (es es' : list image_event) :
  nonblank s = true →
  promise (settle es (isValidImageURL (VStr s)))
  = match es with
    | [] => Pending
    | ImageLoaded :: _ => Fulfilled true
    | ImageFailed :: _ | TimedOut :: _ => Fulfilled false
    end
  ∧ (es ≠ [] → settle (es ++ es') (isValidImageURL (VStr s))
               = settle es (isValidImageURL (VStr s))).
Proof.
  intros Hnonblank. rewrite (probe_requested s Hnonblank).
  assert (∀ e rest, promise (settle (e :: rest)
                      {| promise := Pending; requested := Some (VStr s); timer_set := true |})
                    = match e with ImageLoaded => Fulfilled true | _ => Fulfilled false end)
    as Hfirst.
  { intros e rest. simpl. rewrite settle_settled; by destruct e. }
  split.
  - destruct es as [|e rest]; [done|]. rewrite Hfirst. by destruct e.
  - intros Hes. rewrite settle_app. apply settle_settled.
    destruct es as [|e rest]; [done|]. rewrite Hfirst. by destruct e.
Qed.

Lemma X17_probe_witness :
  nonblank (H := ascii_engine) "https://example.com/x.jpg" = true
  ∧ promise (settle [TimedOut; ImageLoaded]
               (isValidImageURL (H := ascii_engine) (VStr "https://example.com/x.jpg")))
    = Fulfilled false.
Proof.
  split; [reflexivity|].
  exact (proj1 (X17_probe_first_answer_decides (H := ascii_engine)
                  "https://example.com/x.jpg" [TimedOut; ImageLoaded] [] eq_refl)).
Defined.

(** ** The copy to the clipboard *)

Lemma take_drop_last {A} (l : list A) (x : A) :
  take (length l) (l ++ [x]) ++ drop (S (length l)) (l ++ [x]) = l.
Proof.
  rewrite take_app_length, drop_ge by (rewrite length_app; simpl; lia).
  by rewrite app_nil_r.
Qed.

(** The run of [copyToClipboard], case by case. *)
Lemma copyToClipboard_run (host : browser) (text : string) (p : page) :
  copyToClipboard host text p
  = if has_writeText host then
      if writeText_fulfils host
      then (Normal true,
            {| children := children p; clipboard := Some text;
               page_console := page_console p |})
      else (Normal false,
            {| children := children p; clipboard := clipboard p;
               page_console := page_console p
                               ++ [("Failed to copy text: ", Rejected "NotAllowedError")] |})
    else
      match execCommand_copy host with
      | Some true =>
          (Normal true,
           {| children := children p; clipboard := Some text;
              page_console := page_console p |})
      | Some false =>
          (Normal false,
           {| children := children p; clipboard := clipboard p;
              page_console := page_console p |})
      | None =>
          (Normal false,
           {| children := children p ++ [text]; clipboard := clipboard p;
              page_console := page_console p
                              ++ [("Failed to copy text: ", Error "execCommand")] |})
      end.
Proof.
  unfold copyToClipboard, writeText, execCommand. rewrite run_try_catch.
  destruct (has_writeText host).
  - destruct (writeText_fulfils host); [|done]. by destruct p.
  - rewrite run_bind. unfold appendChild. rewrite run_bind.
    destruct (execCommand_copy host) as [[|]|]; [| |done].
    + rewrite run_bind. unfold removeChild, modify. simpl.
      by rewrite take_drop_last, list_lookup_middle.
    + rewrite run_ret, run_bind. unfold removeChild, modify. simpl.
      by rewrite take_drop_last.
Qed.

(** X18. [copyToClipboard] never throws.  It answers [true] exactly when the
    Clipboard API is there and accepts the text, or is not there and
    [execCommand] answers [true]; then the text is on the clipboard.  When
    the API is there and refuses, the answer is [false] and the fallback is
    not tried.  When the answer is [false] the clipboard is as it was. *)
Theorem X18_copy_never_throws (host : browser) (text : string) (p : page) :
  ∃ b p',
    copyToClipboard host text p = (Normal b, p')
    ∧ (b = true ↔
       (has_writeText host = true ∧ writeText_fulfils host = true)
       ∨ (has_writeText host = false ∧ execCommand_copy host = Some true))
    ∧ clipboard p' = (if b then Some text else clipboard p).
Proof.
  rewrite copyToClipboard_run.
  destruct (has_writeText host), (writeText_fulfils host),
    (execCommand_copy host) as [[|]|]; eexists _, _; (split; [done|]);
    (split; [|done]);
    (split; [intros Hb; try discriminate Hb; auto
            |intros [[Ha Hw]|[Ha He]]; try discriminate; done]).
Qed.

(** X19. The text area of the fallback.  [copyToClipboard] leaves the
    children of the body as they were, with one exception: when the
    Clipboard API is not there and [execCommand] throws, [removeChild] is
    never reached and the text area, holding the text, stays in the
    document.  A line is written to the console exactly when something
    was thrown. *)
Theorem X19_copy_leaves_text_area_on_throw (host : browser) (text : string) (p : page) :
  children (copyToClipboard host text p).2
  = (if negb (has_writeText host) && bool_decide (execCommand_copy host = None)
     then children p ++ [text] else children p)
  ∧ length (page_console (copyToClipboard host text p).2)
    = (if (has_writeText host && negb (writeText_fulfils host))
          || (negb (has_writeText host) && bool_decide (execCommand_copy host = None))
       then S (length (page_console p)) else length (page_console p)).
Proof.
  rewrite copyToClipboard_run.
  destruct (has_writeText host), (writeText_fulfils host),
    (execCommand_copy host) as [[|]|]; simpl; rewrite ?length_app; simpl;
    split; (done || lia).
Qed.
